(** * Dictionary App: the request-caching and offline-fallback layer

    A shallow embedding of [app.js] (the [CacheManager] and [APIService]
    objects) and of the service worker that ships with it (install,
    activate and fetch handlers, [cacheFirstStrategy],
    [networkFirstStrategy]), followed by the properties of the lookup
    cache and of the two caching strategies.

    Conventions of the embedding:
    - a JavaScript [Map] is an association list in iteration order
      (module [JsMap]); the order is the one ECMAScript prescribes:
      a fresh key goes to the end, an existing key keeps its place;
    - [Date.now()] is an integer number of milliseconds, passed to each
      operation that reads the clock;
    - [async] functions are run to completion: the outcome of a promise
      is [Fulfilled v] or [Rejected e];
    - the network is an oracle from URLs to outcomes, and every call of
      [fetch] is appended to a log. *)

From Stdlib Require Import ZArith List String Ascii Bool Lia.
From Stdlib Require Import SpecFloat.
Import ListNotations.
Local Open Scope string_scope.
Local Open Scope list_scope.
Local Open Scope Z_scope.

Set Implicit Arguments.
Set Warnings "-register-all".

(** ** JavaScript values *)

Module JS.

(** The values that can sit in the cache: what [response.json()] can
    produce, plus [undefined]. A number is an IEEE-754 value: a signed
    zero, a signed infinity, NaN, or a signed mantissa and exponent. *)
Inductive value : Type :=
| VUndefined
| VNull
| VBool (b : bool)
| VNumber (x : spec_float)
| VString (s : string)
| VArray (elems : list value)
| VObject (props : list (string * value)).

(** [ToBoolean]: the test made by [if (v)] and by [!v]; the falsy
    values are [undefined], [null], [false], [+0], [-0], [NaN] and the
    empty string. *)
Definition ToBoolean (v : value) : bool :=
  match v with
  | VUndefined => false
  | VNull => false
  | VBool b => b
  | VNumber (S754_zero _) => false
  | VNumber S754_nan => false
  | VNumber _ => true
  | VString s => negb (String.eqb s "")
  | VArray _ => true
  | VObject _ => true
  end.

(** What an [await] observes. *)
Inductive outcome (A E : Type) : Type :=
| Fulfilled (a : A)
| Rejected (e : E).
Arguments Fulfilled {A E} a.
Arguments Rejected {A E} e.

(** An [Error] object, as far as the code looks at it. *)
Record error : Type := mkError { name : string; message : string }.

(** [new Error(msg)] *)
Definition Error (msg : string) : error := mkError "Error" msg.

(** [s.includes(pat)] *)
Definition includes (s pat : string) : bool :=
  match String.index 0 pat s with
  | Some _ => true
  | None => false
  end.

End JS.
Import JS.

(** ** [Map]: insertion-ordered finite maps with string keys

    The list holds the entries in iteration order. [set] on a key that
    is present replaces the value where it stands; on a fresh key it
    appends. [delete] removes the entry; [first_key] is
    [m.keys().next().value], [None] standing for [undefined]. *)

Module JsMap.
Section WithValues.
Variable V : Type.

Definition t : Type := list (string * V).

Definition empty : t := [].

Fixpoint get (k : string) (m : t) : option V :=
  match m with
  | [] => None
  | (k', v) :: m' => if String.eqb k' k then Some v else get k m'
  end.

Fixpoint set (k : string) (v : V) (m : t) : t :=
  match m with
  | [] => [(k, v)]
  | (k', v') :: m' =>
      if String.eqb k' k then (k, v) :: m' else (k', v') :: set k v m'
  end.

Definition delete (k : string) (m : t) : t :=
  filter (fun e => negb (String.eqb (fst e) k)) m.

Definition size (m : t) : Z := Z.of_nat (List.length m).

Definition keys (m : t) : list string := map fst m.

Definition first_key (m : t) : option string :=
  match m with
  | [] => None
  | (k, _) :: _ => Some k
  end.

Definition clear (m : t) : t := [].

(** The representation invariant of a [Map]: no key occurs twice. *)
Definition wf (m : t) : Prop := NoDup (keys m).

(** The same, as a test. *)
Fixpoint distinct (ks : list string) : bool :=
  match ks with
  | [] => true
  | k :: ks' => negb (existsb (String.eqb k) ks') && distinct ks'
  end.

End WithValues.
End JsMap.

(** ** app.js: configuration *)

Module CONFIG.
Definition API_URL : string := "https://api.dictionaryapi.dev/api/v2/entries/en/".
Definition DEBOUNCE_DELAY : Z := 500.
Definition CACHE_DURATION : Z := 3600000.
Definition MAX_CACHE_SIZE : Z := 50.
End CONFIG.

(** ** app.js: CacheManager *)

Module CacheManager.

(** The object literal [{ data, timestamp: Date.now() }]. *)
Record item : Type := mkItem { data : value; timestamp : Z }.

Definition cache : Type := JsMap.t item.

(** [get(key)] with [Date.now() = now]: the returned value and the
    cache afterwards. *)
Definition get (now : Z) (key : string) (c : cache) : value * cache :=
  match JsMap.get key c with
  | None => (VNull, c)
  | Some it =>
      let isExpired := now - timestamp it >? CONFIG.CACHE_DURATION in
      if isExpired then (VNull, JsMap.delete key c)
      else (data it, c)
  end.

(** The keys of a cache, oldest first. *)
Definition keys (c : cache) : list string := JsMap.keys c.

(** The size limit at the head of [set]: at capacity, the first key
    of the iteration order is deleted ([delete(undefined)] on an empty
    map does nothing). *)
Definition limit (c : cache) : cache :=
  if JsMap.size c >=? CONFIG.MAX_CACHE_SIZE then
    match JsMap.first_key c with
    | Some firstKey => JsMap.delete firstKey c
    | None => c
    end
  else c.

(** [set(key, data)] with [Date.now() = now]. *)
Definition set (now : Z) (key : string) (d : value) (c : cache) : cache :=
  JsMap.set key (mkItem d now) (limit c).

Definition clear (c : cache) : cache := JsMap.clear c.

(** Sequences of calls on the module-level singleton, which starts
    out as [new Map()]. *)
Inductive op : Type :=
| OpGet (now : Z) (key : string)
| OpSet (now : Z) (key : string) (d : value)
| OpClear.

Definition step (c : cache) (o : op) : cache :=
  match o with
  | OpGet now key => snd (get now key c)
  | OpSet now key d => set now key d c
  | OpClear => clear c
  end.

Definition run (ops : list op) : cache := fold_left step ops (JsMap.empty item).

(** [set(k, d)] for each [(now, k, d)] of a list, in order. *)
Definition sets (entries : list (Z * string * value)) : list op :=
  map (fun e => OpSet (fst (fst e)) (snd (fst e)) (snd e)) entries.

Definition entry_key (e : Z * string * value) : string := snd (fst e).

End CacheManager.


(** ** app.js: APIService *)

Module APIService.

(** [encodeURIComponent] on a well-formed string, given as its UTF-8
    bytes: the unreserved characters [A-Z a-z 0-9 - _ . ! ~ * ' ( )]
    stay, every other byte becomes [%XX]. (A lone surrogate, for which
    the builtin throws, has no UTF-8 form.) *)
Definition unreserved (c : ascii) : bool :=
  let n := nat_of_ascii c in
  ((65 <=? n) && (n <=? 90) || (97 <=? n) && (n <=? 122)
   || (48 <=? n) && (n <=? 57))%nat
  || existsb (Ascii.eqb c) (list_ascii_of_string "-_.!~*'()").

Definition hex_digit (n : nat) : ascii :=
  match String.get n "0123456789ABCDEF" with
  | Some c => c
  | None => "0"%char
  end.

Definition percent_encode (c : ascii) : string :=
  let n := nat_of_ascii c in
  String "%" (String (hex_digit (n / 16)%nat) (String (hex_digit (n mod 16)%nat) "")).

Fixpoint encodeURIComponent (s : string) : string :=
  match s with
  | EmptyString => EmptyString
  | String c s' =>
      if unreserved c then String c (encodeURIComponent s')
      else (percent_encode c ++ encodeURIComponent s')%string
  end.

(** The part of a [Response] that [fetchWord] reads: [status], and what
    [await response.json()] gives. [ok] is the platform's getter
    ([status] in the range 200-299). *)
Record response : Type := mkResponse {
  status : Z;
  json : outcome value error
}.

Definition ok (r : response) : bool := (200 <=? status r) && (status r <=? 299).

(** The network as seen by [await fetch(url)]. *)
Definition network : Type := string -> outcome response error.

(** The state [fetchWord] works on: the [CacheManager] singleton and
    the log of URLs passed to [fetch], oldest first. *)
Record world : Type := mkWorld {
  cache : CacheManager.cache;
  requests : list string
}.

Definition NOT_FOUND_MESSAGE : string :=
  "Word not found. Please check your spelling and try again.".
Definition NETWORK_MESSAGE : string :=
  "Network error. Please check your connection and try again.".
Definition CONNECT_MESSAGE : string :=
  "Unable to connect to the dictionary service. Please check your internet connection.".

Definition request_url (word : string) : string :=
  (CONFIG.API_URL ++ encodeURIComponent word)%string.

(** The body of the [try] block, entered after a cache miss; [c] is the
    cache left by [CacheManager.get], [now] the clock when
    [CacheManager.set] runs. *)
Definition fetch_and_store (now : Z) (net : network) (word : string)
    (c : CacheManager.cache) (log : list string)
  : outcome value error * world :=
  let w1 := mkWorld c (log ++ [request_url word]) in
  match net (request_url word) with
  | Rejected e => (Rejected e, w1)
  | Fulfilled resp =>
      if negb (ok resp) then
        if status resp =? 404 then (Rejected (Error NOT_FOUND_MESSAGE), w1)
        else (Rejected (Error NETWORK_MESSAGE), w1)
      else
        match json resp with
        | Rejected e => (Rejected e, w1)
        | Fulfilled d =>
            (Fulfilled d,
             mkWorld (CacheManager.set now word d c) (log ++ [request_url word]))
        end
  end.

(** The [catch (error)] clause. *)
Definition on_error (e : error) : error :=
  if includes (message e) "Failed to fetch" then Error CONNECT_MESSAGE else e.

(** [fetchWord(word)]; [now_get] is the clock at [CacheManager.get],
    [now_set] the clock, after the response has arrived, at
    [CacheManager.set]. *)
Definition fetchWord (now_get now_set : Z) (net : network) (word : string)
    (w : world) : outcome value error * world :=
  let (cachedData, c1) := CacheManager.get now_get word (cache w) in
  if ToBoolean cachedData then
    (Fulfilled cachedData, mkWorld c1 (requests w))
  else
    match fetch_and_store now_set net word c1 (requests w) with
    | (Rejected e, w') => (Rejected (on_error e), w')
    | (Fulfilled d, w') => (Fulfilled d, w')
    end.

End APIService.

(** ** The service worker *)

Module ServiceWorker.

Definition CACHE_NAME : string := "dictionary-app-v1".
Definition RUNTIME_CACHE : string := "dictionary-runtime-v1".

Definition STATIC_ASSETS : list string :=
  [ "./";
    "./index.html";
    "./style.css";
    "./app.js";
    "https://fonts.googleapis.com/css2?family=Inter:wght@300;400;500;600;700;800&family=Outfit:wght@300;400;500;600;700;800&display=swap" ].

(** The literal compared with [url.origin] in the fetch handler. *)
Definition API_ORIGIN : string := "https://api.dictionaryapi.dev".

Record Response : Type := mkResponse {
  status : Z;
  statusText : string;
  headers : list (string * string);
  body : string
}.

(** *** The Cache API

    A [Cache] maps request URLs to responses (the workload is GET-only,
    so a request is identified by its absolute URL); [CacheStorage]
    ([caches]) maps cache names to caches, in creation order, which is
    the order [caches.match] searches them in. Reads and [caches.open]
    always succeed; a write can be refused by the platform (see [env]). *)
Definition Cache : Type := JsMap.t Response.
Definition CacheStorage : Type := JsMap.t Cache.

(** [caches.open(name)] creates the cache when it does not exist. *)
Definition caches_open (name : string) (st : CacheStorage) : CacheStorage :=
  match JsMap.get name st with
  | Some _ => st
  | None => st ++ [(name, JsMap.empty Response)]
  end.

(** [caches.match(request)]: the first hit over all caches. *)
Fixpoint caches_match (url : string) (st : CacheStorage) : option Response :=
  match st with
  | [] => None
  | (_, c) :: st' =>
      match JsMap.get url c with
      | Some r => Some r
      | None => caches_match url st'
      end
  end.

(** [cache.put(request, response)] on the cache called [name]. *)
Definition cache_put (name url : string) (r : Response) (st : CacheStorage)
  : CacheStorage :=
  match JsMap.get name st with
  | Some c => JsMap.set name (JsMap.set url r c) st
  | None => st
  end.

Definition caches_delete (name : string) (st : CacheStorage) : CacheStorage :=
  JsMap.delete name st.

Definition caches_keys (st : CacheStorage) : list string := JsMap.keys st.

(** *** Promises over the cache storage *)

Definition promise (A : Type) : Type :=
  CacheStorage -> outcome A error * CacheStorage.

Definition resolved {A : Type} (a : A) : promise A := fun st => (Fulfilled a, st).

Definition rejected {A : Type} (e : error) : promise A := fun st => (Rejected e, st).

(** [await p; k] and [p.then(k)] *)
Definition and_then {A B : Type} (p : promise A) (k : A -> promise B) : promise B :=
  fun st =>
    match p st with
    | (Fulfilled a, st') => k a st'
    | (Rejected e, st') => (Rejected e, st')
    end.

(** [try { p } catch (error) { h }] and [p.catch(h)] *)
Definition catch {A : Type} (p : promise A) (h : error -> promise A) : promise A :=
  fun st =>
    match p st with
    | (Fulfilled a, st') => (Fulfilled a, st')
    | (Rejected e, st') => h e st'
    end.

(** A statement that only changes the storage. *)
Definition effect (f : CacheStorage -> CacheStorage) : promise unit :=
  fun st => (Fulfilled tt, f st).

(** Reading the storage. *)
Definition reading {A : Type} (f : CacheStorage -> A) : promise A :=
  fun st => (Fulfilled (f st), st).

Notation "x <- p ;; k" := (and_then p (fun x => k))
  (at level 61, p at next level, right associativity).
Notation "p ;; k" := (and_then p (fun _ => k))
  (at level 61, right associativity).

(** What the platform does during one event: [fetch] is the network,
    [put_ok] tells whether the Cache API accepts writes (it refuses
    them, for instance, when the quota is exhausted). *)
Record env : Type := mkEnv {
  fetch : string -> outcome Response error;
  put_ok : bool
}.

Definition TypeError (msg : string) : error := mkError "TypeError" msg.
Definition QuotaExceededError : error := mkError "QuotaExceededError" "Quota exceeded.".

Definition response_ok (r : Response) : bool :=
  (200 <=? status r) && (status r <=? 299).

(** The fetching half of [cache.addAll(urls)]: every URL is fetched;
    a rejected fetch or a response outside the 200-299 range rejects
    the whole call. *)
Fixpoint fetch_all (e : env) (urls : list string)
  : outcome (list (string * Response)) error :=
  match urls with
  | [] => Fulfilled []
  | u :: urls' =>
      match fetch e u with
      | Rejected err => Rejected err
      | Fulfilled r =>
          if response_ok r then
            match fetch_all e urls' with
            | Rejected err => Rejected err
            | Fulfilled rs => Fulfilled ((u, r) :: rs)
            end
          else Rejected (TypeError "Request failed")
      end
  end.

Definition put_all (name : string) (rs : list (string * Response))
    (st : CacheStorage) : CacheStorage :=
  fold_left (fun s ur => cache_put name (fst ur) (snd ur) s) rs st.

(** [cache.addAll(urls)] as the Cache API specifies it: all the
    responses are stored, or none is and the promise rejects. *)
Definition cache_addAll (e : env) (name : string) (urls : list string)
  : promise unit :=
  fun st =>
    match fetch_all e urls with
    | Rejected err => (Rejected err, st)
    | Fulfilled rs =>
        if put_ok e then (Fulfilled tt, put_all name rs st)
        else (Rejected QuotaExceededError, st)
    end.

(** [cache.put(...)] without [await]: a refused write leaves the storage
    as it is and its rejection is observed by nobody. *)
Definition put_unawaited (e : env) (name url : string) (r : Response)
  : promise unit :=
  effect (fun st => if put_ok e then cache_put name url r st else st).

Section Platform.

(** The URL parser of the platform: [origin u] is [new URL(u).origin],
    [resolve u] is the absolute URL of [u] taken relative to the
    location of the worker script. *)
Variable origin : string -> string.
Variable resolve : string -> string.

(** *** install: the promise handed to [event.waitUntil] *)
Definition install (e : env) : promise unit :=
  catch
    (effect (caches_open CACHE_NAME) ;;
     cache_addAll e CACHE_NAME (map resolve STATIC_ASSETS) ;;
     (* self.skipWaiting() *)
     resolved tt)
    (fun error => (* console.error(..., error) *) resolved tt).

(** *** activate *)
Definition stale (cacheName : string) : bool :=
  negb (String.eqb cacheName CACHE_NAME) && negb (String.eqb cacheName RUNTIME_CACHE).

Definition activate : promise unit :=
  cacheNames <- reading caches_keys ;;
  effect (fun st =>
    fold_left (fun s cacheName =>
                 if stale cacheName then caches_delete cacheName s else s)
              cacheNames st) ;;
  (* self.clients.claim() *)
  resolved tt.

(** *** The caching strategies; [None] is [undefined] *)
Definition cacheFirstStrategy (e : env) (request : string)
  : promise (option Response) :=
  catch
    (cachedResponse <- reading (caches_match request) ;;
     match cachedResponse with
     | Some r => resolved (Some r)
     | None =>
         networkResponse <- (fun st => (fetch e request, st)) ;;
         (if status networkResponse =? 200 then
            effect (caches_open CACHE_NAME) ;;
            put_unawaited e CACHE_NAME request networkResponse
          else resolved tt) ;;
         resolved (Some networkResponse)
     end)
    (fun error => reading (caches_match (resolve "./index.html"))).

Definition quote : string := String "034"%char "".

(** [JSON.stringify({ error: 'Offline', message: '...' })] *)
Definition offline_body : string :=
  ("{" ++ quote ++ "error" ++ quote ++ ":" ++ quote ++ "Offline" ++ quote ++ ","
   ++ quote ++ "message" ++ quote ++ ":" ++ quote
   ++ "You are currently offline. Please check your internet connection."
   ++ quote ++ "}")%string.

Definition offline_response : Response :=
  mkResponse 503 "Service Unavailable"
    [("Content-Type", "application/json")] offline_body.

Definition networkFirstStrategy (e : env) (request : string) : promise Response :=
  catch
    (networkResponse <- (fun st => (fetch e request, st)) ;;
     (if status networkResponse =? 200 then
        effect (caches_open RUNTIME_CACHE) ;;
        put_unawaited e RUNTIME_CACHE request networkResponse
      else resolved tt) ;;
     resolved networkResponse)
    (fun error =>
       cachedResponse <- reading (caches_match request) ;;
       match cachedResponse with
       | Some r => resolved r
       | None => resolved offline_response
       end).

(** *** fetch: the promise handed to [event.respondWith] *)
Definition on_fetch (e : env) (request : string) : promise (option Response) :=
  if String.eqb (origin request) API_ORIGIN then
    r <- networkFirstStrategy e request ;; resolved (Some r)
  else cacheFirstStrategy e request.

(** *** message *)
Definition on_message (type : string) : promise unit :=
  if String.eqb type "CLEAR_CACHE" then
    cacheNames <- reading caches_keys ;;
    effect (fun st => fold_left (fun s cacheName => caches_delete cacheName s)
                                cacheNames st)
  else resolved tt.

(** *** The life of the worker: events delivered one after the other,
    on a storage that starts empty. ([sync] and [push] do not touch the
    storage and are left out.) *)
Inductive event : Type :=
| Install (e : env)
| Activate
| Fetch (e : env) (request : string)
| Message (type : string).

Definition handle (st : CacheStorage) (ev : event) : CacheStorage :=
  match ev with
  | Install e => snd (install e st)
  | Activate => snd (activate st)
  | Fetch e request => snd (on_fetch e request st)
  | Message type => snd (on_message type st)
  end.

Definition run (events : list event) : CacheStorage :=
  fold_left handle events (JsMap.empty Cache).

(** The response stored for [request] in the runtime store. *)
Definition runtime_lookup (request : string) (st : CacheStorage) : option Response :=
  match JsMap.get RUNTIME_CACHE st with
  | Some c => JsMap.get request c
  | None => None
  end.

(** The response stored for [request] in the static store. *)
Definition static_lookup (request : string) (st : CacheStorage) : option Response :=
  match JsMap.get CACHE_NAME st with
  | Some c => JsMap.get request c
  | None => None
  end.

(** The two namespaces are disjoint: no two caches share a name, and
    responses to API requests live in the runtime store only. *)
Definition separated (st : CacheStorage) : Prop :=
  JsMap.wf st
  /\ forall name c url,
       In (name, c) st -> name <> RUNTIME_CACHE -> origin url = API_ORIGIN ->
       JsMap.get url c = None.

(** Promises that keep the stores separated. *)
Definition keeps {A : Type} (p : promise A) : Prop :=
  forall st, separated st -> separated (snd (p st)).

End Platform.

End ServiceWorker.

(** ** Sample data, used to run the definitions *)

Module Samples.

Definition hello_entry : value :=
  VArray [VObject [("word", VString "hello"); ("phonetic", VString "/helo/")]].

(** A cache holding one entry for "hello", stored at time 0. *)
Definition hello_cache : CacheManager.cache :=
  [("hello", CacheManager.mkItem hello_entry 0)].

(** Fifty distinct one-letter keys, "A" first. *)
Definition letter (n : nat) : string := String (ascii_of_nat (65 + n)) "".

Definition fifty : list (Z * string * value) :=
  map (fun n => (Z.of_nat n, letter n, VNull)) (seq 0 50).

Definition full_ops : list CacheManager.op := CacheManager.sets fifty.

(** "alpha" is set, then "beta", then "alpha" again; 48 further keys
    fill the cache; one more key is set. *)
Definition reset_ops : list CacheManager.op :=
  [CacheManager.OpSet 0 "alpha" VNull; CacheManager.OpSet 1 "beta" VNull;
   CacheManager.OpSet 2 "alpha" (VBool true)]
  ++ CacheManager.sets (map (fun n => (3, letter n, VNull)) (seq 0 48))
  ++ [CacheManager.OpSet 4 "omega" VNull].

(** Networks: one that answers every request with status 200 and the
    payload [d], one that answers 404, one that is unreachable (the
    message is the one Chrome gives). *)
Definition net_ok (d : value) : APIService.network :=
  fun _ => Fulfilled (APIService.mkResponse 200 (Fulfilled d)).

Definition net_404 : APIService.network :=
  fun _ => Fulfilled (APIService.mkResponse 404
             (Fulfilled (VObject [("title", VString "No Definitions Found")]))).

Definition net_down : APIService.network :=
  fun _ => Rejected (mkError "TypeError" "Failed to fetch").

Definition fresh_world : APIService.world := APIService.mkWorld [] [].

Definition hello_world : APIService.world := APIService.mkWorld hello_cache [].

(** A platform for the worker: the app is served from
    [https://dict.example/]. *)
Definition sample_resolve (u : string) : string :=
  if String.prefix "https://" u then u
  else ("https://dict.example/" ++ String.substring 2 (String.length u - 2) u)%string.

Definition sample_origin (u : string) : string :=
  if String.prefix "https://api.dictionaryapi.dev/" u then "https://api.dictionaryapi.dev"
  else if String.prefix "https://fonts.googleapis.com/" u then "https://fonts.googleapis.com"
  else "https://dict.example".

Definition page (text : string) : ServiceWorker.Response :=
  ServiceWorker.mkResponse 200 "OK" [("Content-Type", "text/html")] text.

Definition hello_url : string := "https://api.dictionaryapi.dev/api/v2/entries/en/hello".
Definition world_url : string := "https://api.dictionaryapi.dev/api/v2/entries/en/world".
Definition style_url : string := "https://dict.example/style.css".

(** Everything is reachable and every answer is 200. *)
Definition env_online : ServiceWorker.env :=
  ServiceWorker.mkEnv (fun u => Fulfilled (page u)) true.

(** Nothing is reachable. *)
Definition env_offline : ServiceWorker.env :=
  ServiceWorker.mkEnv (fun _ => Rejected (mkError "TypeError" "Failed to fetch")) true.

(** Only [style.css] cannot be fetched. *)
Definition env_no_style : ServiceWorker.env :=
  ServiceWorker.mkEnv
    (fun u => if String.eqb u style_url
              then Rejected (mkError "TypeError" "Failed to fetch")
              else Fulfilled (page u))
    true.

(** The network is fine and the store refuses writes. *)
Definition env_no_space : ServiceWorker.env :=
  ServiceWorker.mkEnv (fun u => Fulfilled (page u)) false.

(** Install, activate, then one lookup of "hello" while online. *)
Definition sample_events : list ServiceWorker.event :=
  [ServiceWorker.Install env_online; ServiceWorker.Activate;
   ServiceWorker.Fetch env_online hello_url].

End Samples.

(** ** Histories of the lookup cache and of [fetchWord] *)

Module History.

(** The item written by the last [set(k, ...)] of a sequence of calls,
    if there is one. *)
Definition last_set (k : string) (ops : list CacheManager.op)
  : option CacheManager.item :=
  fold_left
    (fun acc o =>
       match o with
       | CacheManager.OpSet now k' d =>
           if String.eqb k' k then Some (CacheManager.mkItem d now) else acc
       | _ => acc
       end)
    ops None.

(** Sequences made of [get]s only. *)
Definition is_get (o : CacheManager.op) : bool :=
  match o with
  | CacheManager.OpGet _ _ => true
  | _ => false
  end.




End History.

(** ** Invariants of the worker's storage *)

Module WorkerSpec.
Import ServiceWorker.

(** Promises that keep a property of the storage. *)
Definition preserves (P : CacheStorage -> Prop) {A : Type} (p : promise A) : Prop :=
  forall st, P st -> P (snd (p st)).

(** The storage holds no cache but the worker's own two. *)
Definition own_names (st : CacheStorage) : Prop :=
  forall name, In name (caches_keys st) -> name = CACHE_NAME \/ name = RUNTIME_CACHE.

(** What the worker lets into a cache: a response with a success
    status; into the runtime store, a response with status 200 to a
    request to the API. *)
Definition admissible (origin : string -> string) (name url : string) (r : Response)
  : Prop :=
  response_ok r = true
  /\ (name = RUNTIME_CACHE -> status r = 200 /\ origin url = API_ORIGIN).

Definition stores_admissible (origin : string -> string) (st : CacheStorage) : Prop :=
  forall name c url r,
    In (name, c) st -> JsMap.get url c = Some r -> admissible origin name url r.

(** The manifest can be fetched: every asset is answered with a success
    status. *)
Definition manifest_available (resolve : string -> string) (e : env) : Prop :=
  forall a, In a STATIC_ASSETS ->
    exists r, fetch e (resolve a) = Fulfilled r /\ response_ok r = true.

End WorkerSpec.

(** ** app.js: the data functions of the UI controller

    [wordData] and [meanings] are parts of the payload, that is, of a
    tree produced by [response.json()]: any JSON value can stand where
    the code expects an object or an array, and the code then throws as
    JavaScript does. *)

Module UI.

(** The two errors the code can run into (the text of the message is
    the engine's; none of the functions below looks at it). *)
Definition not_an_object : error :=
  mkError "TypeError" "Cannot read properties of undefined or null".
Definition not_a_function : error :=
  mkError "TypeError" "forEach is not a function".

(** The own property [name] of an object literal; [undefined] when it
    has none. *)
Fixpoint own (name : string) (props : list (string * value)) : value :=
  match props with
  | [] => VUndefined
  | (k, x) :: props' => if String.eqb k name then x else own name props'
  end.

(** [v.name], for a name that no prototype defines ([phonetics],
    [audio], [synonyms], [definitions]): reading it off [undefined] or
    [null] throws, a primitive or an array has no such property. *)
Definition prop (v : value) (name : string) : outcome value error :=
  match v with
  | VUndefined | VNull => Rejected not_an_object
  | VObject props => Fulfilled (own name props)
  | _ => Fulfilled VUndefined
  end.

(** [await]-free sequencing of steps that can throw. *)
Definition bind {A B : Type} (o : outcome A error) (k : A -> outcome B error)
  : outcome B error :=
  match o with
  | Fulfilled a => k a
  | Rejected e => Rejected e
  end.

(** The loop of [forEach] over the elements of an array, [s] being the
    state the callback works on. *)
Fixpoint each {S : Type} (f : value -> S -> outcome S error) (elems : list value)
    (s : S) : outcome S error :=
  match elems with
  | [] => Fulfilled s
  | x :: elems' => bind (f x s) (each f elems')
  end.

(** [v.forEach(f)]: only an array has the method; on anything else
    (a JSON object with a [forEach] property included, since no JSON
    value is a function) the call throws. *)
Definition forEach {S : Type} (v : value) (f : value -> S -> outcome S error)
    (s : S) : outcome S error :=
  match v with
  | VUndefined | VNull => Rejected not_an_object
  | VArray elems => each f elems s
  | _ => Rejected not_a_function
  end.

(** [extractAudioURLs(wordData)] *)
Definition extractAudioURLs (wordData : value) : outcome (list value) error :=
  bind (prop wordData "phonetics") (fun phonetics =>
  if ToBoolean phonetics then
    forEach phonetics
      (fun phonetic audioURLs =>
         bind (prop phonetic "audio") (fun audio =>
         if ToBoolean audio then Fulfilled (audioURLs ++ [audio])
         else Fulfilled audioURLs))
      []
  else Fulfilled []).

(** [phonetic.audio] as the callback of [extractAudioURLs] reads it. *)
Definition audio_of (phonetic : value) : value :=
  match prop phonetic "audio" with
  | Fulfilled audio => audio
  | Rejected _ => VUndefined
  end.

(** SameValueZero, the equality of [Set]. Numbers are compared as
    IEEE-754 values in canonical form ([+0] equals [-0], [NaN] equals
    [NaN]); an array or an object is equal to itself only, and two
    places of a JSON tree never hold the same one. *)
Definition same_number (x y : spec_float) : bool :=
  match x, y with
  | S754_zero _, S754_zero _ => true
  | S754_nan, S754_nan => true
  | S754_infinity a, S754_infinity b => Bool.eqb a b
  | S754_finite a m e, S754_finite b m' e' =>
      Bool.eqb a b && Pos.eqb m m' && Z.eqb e e'
  | _, _ => false
  end.

Definition same_value_zero (x y : value) : bool :=
  match x, y with
  | VUndefined, VUndefined => true
  | VNull, VNull => true
  | VBool a, VBool b => Bool.eqb a b
  | VNumber a, VNumber b => same_number a b
  | VString a, VString b => String.eqb a b
  | _, _ => false
  end.

(** [set.add(x)], the set being given by its elements in insertion
    order, which is the order of [Array.from(set)]. *)
Definition add (x : value) (set : list value) : list value :=
  if existsb (same_value_zero x) set then set else set ++ [x].

Definition add_all (synonyms : value) (set : list value) : outcome (list value) error :=
  forEach synonyms (fun synonym s => Fulfilled (add synonym s)) set.

(** The callback run on each definition of a meaning. *)
Definition on_definition (def : value) (synonymsSet : list value)
  : outcome (list value) error :=
  bind (prop def "synonyms") (fun synonyms =>
  if ToBoolean synonyms then add_all synonyms synonymsSet
  else Fulfilled synonymsSet).

(** The callback run on each meaning. *)
Definition on_meaning (meaning : value) (synonymsSet : list value)
  : outcome (list value) error :=
  bind (prop meaning "synonyms") (fun synonyms =>
  bind (if ToBoolean synonyms then add_all synonyms synonymsSet
        else Fulfilled synonymsSet) (fun synonymsSet =>
  bind (prop meaning "definitions") (fun definitions =>
  if ToBoolean definitions then forEach definitions on_definition synonymsSet
  else Fulfilled synonymsSet))).

(** [extractAllSynonyms(meanings)] *)
Definition extractAllSynonyms (meanings : value) : outcome (list value) error :=
  forEach meanings on_meaning [].

(** Whether [y] is the string [s]. *)
Definition is_string (s : string) (y : value) : bool :=
  match y with
  | VString s' => String.eqb s s'
  | _ => false
  end.

(** No string occurs twice. *)
Definition unique_strings (set : list value) : Prop :=
  forall s, (List.length (filter (is_string s) set) <= 1)%nat.

(** Steps that only add to the set. *)
Definition grows (f : value -> list value -> outcome (list value) error) : Prop :=
  forall x s s', f x s = Fulfilled s' -> incl s s'.

End UI.

Module UISamples.

Definition phonetic (text audio : string) : value :=
  VObject [("text", VString text); ("audio", VString audio)].

Definition hello_word : value :=
  VObject [("word", VString "hello");
           ("phonetics",
            VArray [phonetic "/helo/" "https://audio.example/hello-uk.mp3";
                    phonetic "/hel@U/" "";
                    VObject [("text", VString "/h@loU/")];
                    phonetic "/helou/" "https://audio.example/hello-us.mp3"])].

Definition meaning (synonyms : list string) (definitions : list (list string)) : value :=
  VObject [("partOfSpeech", VString "noun");
           ("synonyms", VArray (map VString synonyms));
           ("definitions",
            VArray (map (fun syns => VObject [("definition", VString "...");
                                              ("synonyms", VArray (map VString syns))])
                        definitions))].

Definition hello_meanings : value :=
  VArray [meaning ["greeting"; "hi"] [["hi"; "howdy"]; []];
          meaning ["howdy"; "salutation"] [["greeting"]]].

End UISamples.

(** ** The page behind the worker

    Once the worker controls the page, the [fetch] of [fetchWord] is
    answered by the fetch handler: what [respondWith] receives is what
    the page gets. [response.json()] parses the body of that response;
    a promise that carries no response makes [fetch] fail with a
    network error. *)

Module Page.
Section Platform.

(** The URL parser, as for the worker, and [JSON.parse]. *)
Variable origin : string -> string.
Variable resolve : string -> string.
Variable parse : string -> outcome value error.

Definition network_error : error := mkError "TypeError" "Failed to fetch".

(** The network as the page sees it during one event of the worker. *)
Definition served (e : ServiceWorker.env) (st : ServiceWorker.CacheStorage)
  : APIService.network :=
  fun url =>
    match fst (ServiceWorker.on_fetch origin resolve e url st) with
    | Fulfilled (Some r) =>
        Fulfilled (APIService.mkResponse (ServiceWorker.status r)
                                         (parse (ServiceWorker.body r)))
    | Fulfilled None => Rejected network_error
    | Rejected _ => Rejected network_error
    end.

(** The storage after the worker has answered the request for [url]. *)
Definition storage_after (e : ServiceWorker.env) (st : ServiceWorker.CacheStorage)
    (url : string) : ServiceWorker.CacheStorage :=
  snd (ServiceWorker.on_fetch origin resolve e url st).

End Platform.
End Page.

Module PageSamples.

(** A parser that knows one body. *)
Definition sample_parse (text : string) : outcome value error :=
  if String.eqb text "[hello]" then Fulfilled Samples.hello_entry
  else Rejected (mkError "SyntaxError" "Unexpected token").

(** The API answers "hello" with status 200 and that body. *)
Definition env_api : ServiceWorker.env :=
  ServiceWorker.mkEnv
    (fun u => Fulfilled (ServiceWorker.mkResponse 200 "OK"
                           [("Content-Type", "application/json")] "[hello]"))
    true.

End PageSamples.

(** * Properties *)

(** ** Facts about [Map] *)

Unset Implicit Arguments.

Module JsMapFacts.
Section WithValues.
Context {V : Type}.
Implicit Types (m : JsMap.t V) (k : string) (v : V).

Lemma get_set_same m k v : JsMap.get k (JsMap.set k v m) = Some v.
Proof.
  induction m as [|[k' v'] m IH]; simpl.
  - now rewrite String.eqb_refl.
  - destruct (String.eqb k' k) eqn:E; simpl.
    + now rewrite String.eqb_refl.
    + now rewrite E.
Qed.

Lemma get_set_other m k k' v :
  k <> k' -> JsMap.get k' (JsMap.set k v m) = JsMap.get k' m.
Proof.
  intros Hne. induction m as [|[k0 v0] m IH]; simpl.
  - apply String.eqb_neq in Hne. now rewrite Hne.
  - destruct (String.eqb k0 k) eqn:E; simpl.
    + apply String.eqb_eq in E. subst k0.
      apply String.eqb_neq in Hne. now rewrite Hne.
    + now rewrite IH.
Qed.

Lemma get_delete_same m k : JsMap.get k (JsMap.delete k m) = None.
Proof.
  induction m as [|[k' v'] m IH]; simpl; [reflexivity|].
  destruct (String.eqb k' k) eqn:E; simpl; [assumption|].
  now rewrite E.
Qed.

Lemma get_delete_other m k k' :
  k <> k' -> JsMap.get k' (JsMap.delete k m) = JsMap.get k' m.
Proof.
  intros Hne. induction m as [|[k0 v0] m IH]; simpl; [reflexivity|].
  destruct (String.eqb k0 k) eqn:E; simpl.
  - apply String.eqb_eq in E. subst k0.
    apply String.eqb_neq in Hne. now rewrite Hne.
  - now rewrite IH.
Qed.

Lemma get_None_iff m k : JsMap.get k m = None <-> ~ In k (JsMap.keys m).
Proof.
  induction m as [|[k' v'] m IH]; simpl.
  - tauto.
  - destruct (String.eqb_spec k' k) as [->|Hne].
    + split; [discriminate|]. intros H. exfalso. apply H. now left.
    + rewrite IH. tauto.
Qed.

Lemma get_Some_in m k v : JsMap.get k m = Some v -> In k (JsMap.keys m).
Proof.
  intros H. destruct (in_dec string_dec k (JsMap.keys m)) as [Hin|Hnin]; auto.
  apply get_None_iff in Hnin. congruence.
Qed.

Lemma set_fresh m k v : JsMap.get k m = None -> JsMap.set k v m = m ++ [(k, v)].
Proof.
  induction m as [|[k' v'] m IH]; simpl; [reflexivity|].
  destruct (String.eqb k' k); [discriminate|].
  intros H. now rewrite IH.
Qed.

Lemma keys_set_present m k v v0 :
  JsMap.get k m = Some v0 -> JsMap.keys (JsMap.set k v m) = JsMap.keys m.
Proof.
  induction m as [|[k' v'] m IH]; simpl; [discriminate|].
  destruct (String.eqb_spec k' k) as [->|Hne]; simpl; [reflexivity|].
  intros H. f_equal. now apply IH.
Qed.

Lemma length_set_present m k v v0 :
  JsMap.get k m = Some v0 -> List.length (JsMap.set k v m) = List.length m.
Proof.
  intros H. apply keys_set_present with (v := v) in H.
  unfold JsMap.keys in H.
  now rewrite <- (length_map fst), H, length_map.
Qed.

Lemma length_set m k v : (List.length (JsMap.set k v m) <= S (List.length m))%nat.
Proof.
  induction m as [|[k' v'] m IH]; simpl; [lia|].
  destruct (String.eqb k' k); simpl; lia.
Qed.

Lemma length_delete m k : (List.length (JsMap.delete k m) <= List.length m)%nat.
Proof. apply filter_length_le. Qed.

Lemma delete_absent m k : ~ In k (JsMap.keys m) -> JsMap.delete k m = m.
Proof.
  induction m as [|[k' v'] m IH]; simpl; [reflexivity|].
  intros H. destruct (String.eqb_spec k' k) as [->|Hne]; simpl.
  - exfalso. apply H. now left.
  - f_equal. apply IH. tauto.
Qed.

Lemma delete_head m k v : JsMap.wf ((k, v) :: m) -> JsMap.delete k ((k, v) :: m) = m.
Proof.
  unfold JsMap.wf. simpl. intros H. inversion H; subst.
  rewrite String.eqb_refl. simpl. now apply delete_absent.
Qed.

Lemma keys_delete m k :
  JsMap.keys (JsMap.delete k m)
  = filter (fun k' => negb (String.eqb k' k)) (JsMap.keys m).
Proof.
  induction m as [|[k' v'] m IH]; simpl; [reflexivity|].
  destruct (String.eqb k' k); simpl; [assumption|]. now f_equal.
Qed.

Lemma keys_set_incl m k v k' :
  In k' (JsMap.keys (JsMap.set k v m)) -> k' = k \/ In k' (JsMap.keys m).
Proof.
  induction m as [|[k0 v0] m IH]; simpl.
  - intros [<-|[]]. now left.
  - destruct (String.eqb_spec k0 k) as [->|Hne]; simpl.
    + intros [<-|H]; auto.
    + intros [<-|H]; auto. destruct (IH H); auto.
Qed.

Lemma wf_set m k v : JsMap.wf m -> JsMap.wf (JsMap.set k v m).
Proof.
  unfold JsMap.wf. induction m as [|[k' v'] m IH]; simpl.
  - intros _. constructor; [easy | constructor].
  - intros H. inversion H as [|? ? Hnin Hnd]; subst.
    destruct (String.eqb_spec k' k) as [->|Hne]; simpl.
    + now constructor.
    + constructor; [|now apply IH].
      intros Hin. apply keys_set_incl in Hin. destruct Hin; [congruence | tauto].
Qed.

Lemma wf_delete m k : JsMap.wf m -> JsMap.wf (JsMap.delete k m).
Proof.
  unfold JsMap.wf. rewrite keys_delete. apply NoDup_filter.
Qed.

Lemma wf_tail m k v : JsMap.wf ((k, v) :: m) -> JsMap.wf m.
Proof. unfold JsMap.wf. simpl. intros H. now inversion H. Qed.

Lemma distinct_NoDup (ks : list string) : JsMap.distinct ks = true -> NoDup ks.
Proof.
  induction ks as [|k0 ks IH]; simpl; intros H; constructor.
  - apply andb_prop in H. destruct H as [H _].
    intros Hin. apply negb_true_iff in H.
    assert (Hex : existsb (String.eqb k0) ks = true).
    { apply existsb_exists. exists k0. split; [assumption | apply String.eqb_refl]. }
    congruence.
  - apply IH. apply andb_prop in H. tauto.
Qed.

Lemma delete_split m k v :
  JsMap.wf m -> JsMap.get k m = Some v ->
  exists before after,
    m = before ++ (k, v) :: after /\ JsMap.delete k m = before ++ after.
Proof.
  induction m as [|[k' v'] m IH]; [discriminate|].
  intros Hwf Hget. cbn [JsMap.get] in Hget.
  destruct (String.eqb_spec k' k) as [->|Hne].
  - injection Hget as ->. exists [], m. split; [reflexivity|].
    now apply delete_head.
  - destruct (IH (wf_tail _ _ _ Hwf) Hget) as (before & after & Hm & Hd).
    exists ((k', v') :: before), after. split.
    + simpl. now rewrite <- Hm.
    + unfold JsMap.delete in *. simpl.
      apply String.eqb_neq in Hne. rewrite Hne. simpl. now rewrite Hd.
Qed.

Lemma length_delete_present m k v :
  JsMap.get k m = Some v ->
  (List.length (JsMap.delete k m) < List.length m)%nat.
Proof.
  induction m as [|[k' v'] m IH]; simpl; [discriminate|].
  destruct (String.eqb k' k); simpl.
  - intros _. pose proof (length_delete m k). unfold JsMap.delete in *. lia.
  - intros H. apply IH in H. unfold JsMap.delete in *. lia.
Qed.

End WithValues.
End JsMapFacts.

(** ** The lookup cache *)

Module CacheFacts.
Import CacheManager.
Implicit Types (c : cache) (k key : string) (it : item) (d v : value).

Lemma get_valid now k c it :
  JsMap.get k c = Some it -> now - timestamp it <= CONFIG.CACHE_DURATION ->
  get now k c = (data it, c).
Proof.
  unfold get. intros -> H.
  rewrite Z.gtb_ltb. destruct (Z.ltb_spec CONFIG.CACHE_DURATION (now - timestamp it)).
  - lia.
  - reflexivity.
Qed.

Lemma get_expired now k c it :
  JsMap.get k c = Some it -> now - timestamp it > CONFIG.CACHE_DURATION ->
  get now k c = (VNull, JsMap.delete k c).
Proof.
  unfold get. intros -> H.
  rewrite Z.gtb_ltb. destruct (Z.ltb_spec CONFIG.CACHE_DURATION (now - timestamp it)).
  - reflexivity.
  - lia.
Qed.

Lemma get_absent now k c : JsMap.get k c = None -> get now k c = (VNull, c).
Proof. unfold get. now intros ->. Qed.

Lemma get_cache_cases now k c :
  snd (get now k c) = c \/ snd (get now k c) = JsMap.delete k c.
Proof.
  unfold get. destruct (JsMap.get k c) as [it|]; [|now left].
  destruct (now - timestamp it >? CONFIG.CACHE_DURATION); [now right | now left].
Qed.

Lemma limit_below c : JsMap.size c < CONFIG.MAX_CACHE_SIZE -> limit c = c.
Proof.
  unfold limit. intros H. rewrite Z.geb_leb.
  destruct (Z.leb_spec CONFIG.MAX_CACHE_SIZE (JsMap.size c)); [lia | reflexivity].
Qed.

Lemma limit_full c :
  JsMap.wf c -> JsMap.size c >= CONFIG.MAX_CACHE_SIZE -> limit c = tl c.
Proof.
  unfold limit. intros Hwf H. rewrite Z.geb_leb.
  destruct (Z.leb_spec CONFIG.MAX_CACHE_SIZE (JsMap.size c)); [|lia].
  destruct c as [|[k0 it0] rest]; simpl; [reflexivity|].
  now apply JsMapFacts.delete_head.
Qed.

Lemma size_limit c :
  JsMap.size c <= CONFIG.MAX_CACHE_SIZE -> JsMap.size (limit c) < CONFIG.MAX_CACHE_SIZE.
Proof.
  unfold limit, JsMap.size, CONFIG.MAX_CACHE_SIZE. intros H. rewrite Z.geb_leb.
  destruct (Z.leb_spec 50 (Z.of_nat (List.length c))); [|lia].
  destruct c as [|[k0 it0] rest].
  - simpl in *. lia.
  - cbn [JsMap.first_key].
    assert (Hg : JsMap.get k0 ((k0, it0) :: rest) = Some it0).
    { simpl. now rewrite String.eqb_refl. }
    apply JsMapFacts.length_delete_present in Hg. lia.
Qed.

Lemma size_set now k d c :
  JsMap.size c <= CONFIG.MAX_CACHE_SIZE ->
  JsMap.size (set now k d c) <= CONFIG.MAX_CACHE_SIZE.
Proof.
  intros H. apply size_limit in H. unfold set.
  pose proof (JsMapFacts.length_set (limit c) k (mkItem d now)).
  unfold JsMap.size in *. lia.
Qed.

Lemma size_get now k c : JsMap.size (snd (get now k c)) <= JsMap.size c.
Proof.
  destruct (get_cache_cases now k c) as [-> | ->]; [lia|].
  pose proof (JsMapFacts.length_delete c k). unfold JsMap.size. lia.
Qed.

Lemma size_step c o :
  JsMap.size c <= CONFIG.MAX_CACHE_SIZE ->
  JsMap.size (step c o) <= CONFIG.MAX_CACHE_SIZE.
Proof.
  destruct o as [now k | now k d |]; simpl; intros H.
  - pose proof (size_get now k c). lia.
  - now apply size_set.
  - unfold CONFIG.MAX_CACHE_SIZE, JsMap.size. simpl. lia.
Qed.

Lemma wf_limit c : JsMap.wf c -> JsMap.wf (limit c).
Proof.
  unfold limit. intros H.
  destruct (JsMap.size c >=? CONFIG.MAX_CACHE_SIZE); [|assumption].
  destruct (JsMap.first_key c); [|assumption].
  now apply JsMapFacts.wf_delete.
Qed.

Lemma wf_step c o : JsMap.wf c -> JsMap.wf (step c o).
Proof.
  destruct o as [now k | now k d |]; simpl; intros H.
  - destruct (get_cache_cases now k c) as [-> | ->]; [assumption|].
    now apply JsMapFacts.wf_delete.
  - unfold set. now apply JsMapFacts.wf_set, wf_limit.
  - constructor.
Qed.

(** Invariants of every cache the program can build. *)
Lemma fold_step_invariant (P : cache -> Prop) :
  (forall c o, P c -> P (step c o)) ->
  forall ops c, P c -> P (fold_left step ops c).
Proof.
  intros Hstep ops. induction ops as [|o ops IH]; simpl; intros c Hc.
  - assumption.
  - apply IH, Hstep, Hc.
Qed.

Lemma size_run ops : JsMap.size (run ops) <= CONFIG.MAX_CACHE_SIZE.
Proof.
  unfold run.
  apply (fold_step_invariant (fun c => JsMap.size c <= CONFIG.MAX_CACHE_SIZE)).
  - intros c o. apply size_step.
  - unfold CONFIG.MAX_CACHE_SIZE, JsMap.size. simpl. lia.
Qed.

Lemma wf_run ops : JsMap.wf (run ops).
Proof.
  unfold run. apply (fold_step_invariant (@JsMap.wf item)).
  - intros c o. apply wf_step.
  - constructor.
Qed.

Lemma set_fresh_full now k d c :
  JsMap.wf c -> JsMap.get k c = None -> JsMap.size c >= CONFIG.MAX_CACHE_SIZE ->
  exists k0 it0 rest,
    c = (k0, it0) :: rest
    /\ set now k d c = rest ++ [(k, mkItem d now)]
    /\ JsMap.get k0 (set now k d c) = None.
Proof.
  intros Hwf Hk Hfull.
  destruct c as [|[k0 it0] rest].
  - unfold JsMap.size, CONFIG.MAX_CACHE_SIZE in Hfull. simpl in Hfull. lia.
  - exists k0, it0, rest. split; [reflexivity|].
    assert (Hne : k0 <> k).
    { simpl in Hk. destruct (String.eqb_spec k0 k); [discriminate | assumption]. }
    assert (Hk' : JsMap.get k rest = None).
    { simpl in Hk. destruct (String.eqb_spec k0 k); [discriminate | assumption]. }
    assert (Hset : set now k d ((k0, it0) :: rest) = rest ++ [(k, mkItem d now)]).
    { unfold set. rewrite (limit_full _ Hwf Hfull). simpl.
      now apply JsMapFacts.set_fresh. }
    split; [assumption|].
    rewrite Hset. apply JsMapFacts.get_None_iff.
    unfold JsMap.keys. rewrite map_app. simpl. intros Hin.
    apply in_app_or in Hin. destruct Hin as [Hin | [Heq | []]].
    + unfold JsMap.wf in Hwf. simpl in Hwf. inversion Hwf. contradiction.
    + congruence.
Qed.

Lemma set_fresh_below now k d c :
  JsMap.get k c = None -> JsMap.size c < CONFIG.MAX_CACHE_SIZE ->
  set now k d c = c ++ [(k, mkItem d now)].
Proof.
  intros Hk Hlt. unfold set. rewrite limit_below by assumption.
  now apply JsMapFacts.set_fresh.
Qed.

Lemma get_set_item now k d c :
  JsMap.get k (set now k d c) = Some (mkItem d now).
Proof. unfold set. apply JsMapFacts.get_set_same. Qed.

Lemma run_snoc ops o : run (ops ++ [o]) = step (run ops) o.
Proof. unfold run. now rewrite fold_left_app. Qed.

Lemma tl_skipn (A : Type) (n : nat) (l : list A) : tl (skipn n l) = skipn (S n) l.
Proof.
  revert l. induction n as [|n IH]; intros [|a l]; simpl; try reflexivity.
  apply IH.
Qed.

Lemma in_skipn_in (A : Type) (n : nat) (l : list A) (x : A) :
  In x (skipn n l) -> In x l.
Proof.
  revert l. induction n as [|n IH]; intros [|a l]; simpl; auto.
Qed.

(** Pure FIFO: after [set]s of pairwise distinct keys, the cache holds
    the last 50 of them, in the order of their insertion. *)
Lemma fifo_distinct_sets (entries : list (Z * string * value)) :
  NoDup (map entry_key entries) ->
  keys (run (sets entries))
  = skipn (List.length entries - 50) (map entry_key entries).
Proof.
  induction entries as [|x l IH] using rev_ind; [reflexivity|].
  rewrite map_app. simpl. intros Hnd.
  apply NoDup_remove in Hnd. rewrite app_nil_r in Hnd. destruct Hnd as [Hnd Hx].
  specialize (IH Hnd).
  unfold sets. rewrite map_app. simpl. rewrite run_snoc. fold (sets l). simpl.
  destruct x as [[now k] d]. unfold entry_key in Hx. simpl in *.
  set (c := run (sets l)) in *.
  set (ks := map entry_key l) in *.
  assert (Hfresh : JsMap.get k c = None).
  { apply JsMapFacts.get_None_iff. unfold keys in IH. rewrite IH.
    intros Hin. apply in_skipn_in in Hin. contradiction. }
  assert (Hks : List.length ks = List.length l) by (unfold ks; apply length_map).
  assert (Hlen : List.length c = (List.length l - (List.length l - 50))%nat).
  { unfold keys, JsMap.keys in IH.
    rewrite <- (length_map fst c), IH, length_skipn. lia. }
  rewrite length_app. simpl.
  destruct (Nat.lt_ge_cases (List.length l) 50) as [Hlt | Hge].
  - rewrite set_fresh_below; [|assumption|].
    + unfold keys, JsMap.keys in *. rewrite map_app, IH. simpl.
      replace (List.length l - 50)%nat with 0%nat by lia.
      replace (List.length l + 1 - 50)%nat with 0%nat by lia.
      reflexivity.
    + unfold JsMap.size, CONFIG.MAX_CACHE_SIZE. lia.
  - destruct (set_fresh_full now k d c (wf_run (sets l)) Hfresh)
      as (k0 & it0 & rest & Hc & Hset & _).
    { unfold JsMap.size, CONFIG.MAX_CACHE_SIZE. fold c. lia. }
    fold c in Hc, Hset. rewrite Hset.
    unfold keys, JsMap.keys in *. rewrite map_app. simpl.
    replace (map fst rest) with (tl (map fst c)) by (rewrite Hc; reflexivity).
    rewrite IH, tl_skipn, skipn_app.
    replace (List.length l + 1 - 50)%nat with (S (List.length l - 50)) by lia.
    replace (S (List.length l - 50) - List.length ks)%nat with 0%nat by lia.
    reflexivity.
Qed.

(** C2. [get(k)] after [set(k, v)], the clock having advanced by at most
    [CACHE_DURATION] (3,600,000 ms), returns exactly [v] and leaves the
    cache as it is; and an entry is valid precisely while
    [now - timestamp <= CACHE_DURATION]: within that bound [get] returns
    its data, beyond it [get] returns [null] and deletes the entry. *)
Theorem get_after_set_within_ttl c k v (t0 t1 now : Z) it :
  (t1 - t0 <= 3600000 -> get t1 k (set t0 k v c) = (v, set t0 k v c))
  /\ (JsMap.get k c = Some it ->
      (now - timestamp it <= 3600000 -> get now k c = (data it, c))
      /\ (now - timestamp it > 3600000 ->
          get now k c = (VNull, JsMap.delete k c)
          /\ JsMap.get k (JsMap.delete k c) = None)).
Proof.
  split.
  - intros Ht. apply (get_valid _ _ _ (mkItem v t0)).
    + apply get_set_item.
    + simpl. unfold CONFIG.CACHE_DURATION. lia.
  - intros Hget. split; intros Ht.
    + now apply get_valid.
    + split; [now apply (get_expired now k c it) | apply JsMapFacts.get_delete_same].
Qed.

Lemma get_after_set_within_ttl_witness :
  (3600005 - 5 <= 3600000
   /\ get 3600005 "hello" (set 5 "hello" Samples.hello_entry Samples.hello_cache)
      = (Samples.hello_entry, [("hello", mkItem Samples.hello_entry 5)]))
  /\ (JsMap.get "hello" Samples.hello_cache = Some (mkItem Samples.hello_entry 0)
      /\ 3600000 - 0 <= 3600000
      /\ get 3600000 "hello" Samples.hello_cache
         = (Samples.hello_entry, Samples.hello_cache))
  /\ (3600001 - 0 > 3600000
      /\ get 3600001 "hello" Samples.hello_cache = (VNull, [])).
Proof.
  assert (H1 : 3600005 - 5 <= 3600000) by lia.
  assert (H2 : JsMap.get "hello" Samples.hello_cache
               = Some (mkItem Samples.hello_entry 0)) by reflexivity.
  assert (H3 : 3600000 - 0 <= 3600000) by lia.
  assert (H4 : 3600001 - 0 > 3600000) by lia.
  split; [split; [exact H1|] | split; [split; [exact H2 | split; [exact H3|]] | split; [exact H4|]]].
  - exact (proj1 (get_after_set_within_ttl Samples.hello_cache "hello"
                    Samples.hello_entry 5 3600005 0
                    (mkItem Samples.hello_entry 0)) H1).
  - exact (proj1 (proj2 (get_after_set_within_ttl Samples.hello_cache "hello"
                    Samples.hello_entry 5 3600005 3600000
                    (mkItem Samples.hello_entry 0)) H2) H3).
  - exact (proj1 (proj2 (proj2 (get_after_set_within_ttl Samples.hello_cache "hello"
                    Samples.hello_entry 5 3600005 3600001
                    (mkItem Samples.hello_entry 0)) H2) H4)).
Defined.

(** C3. The size of the cache never exceeds [MAX_CACHE_SIZE] (50)
    after any sequence of [get], [set] and [clear]. When a [set] of a
    key that is not present finds the cache at capacity, exactly the
    first entry of the insertion order is evicted and the new entry is
    appended (every other entry stays, in place); below capacity
    nothing is evicted. A [get] never reorders: it leaves the cache as
    it is or deletes the entry it was asked for. After [set]s of
    pairwise distinct keys the cache holds the last 50 of them, oldest
    first. *)
Theorem cache_bounded_fifo (ops : list op) (now : Z) (k : string) (v : value)
    (entries : list (Z * string * value)) :
  JsMap.size (run ops) <= 50
  /\ (JsMap.get k (run ops) = None -> JsMap.size (run ops) + 1 > 50 ->
      exists k0 it0 rest,
        run ops = (k0, it0) :: rest
        /\ set now k v (run ops) = rest ++ [(k, mkItem v now)]
        /\ JsMap.get k0 (set now k v (run ops)) = None)
  /\ (JsMap.get k (run ops) = None -> JsMap.size (run ops) + 1 <= 50 ->
      set now k v (run ops) = run ops ++ [(k, mkItem v now)])
  /\ (snd (get now k (run ops)) = run ops
      \/ snd (get now k (run ops)) = JsMap.delete k (run ops))
  /\ (NoDup (map entry_key entries) ->
      keys (run (sets entries))
      = skipn (List.length entries - 50) (map entry_key entries)).
Proof.
  split; [apply size_run|].
  split.
  { intros Hk Hfull. apply set_fresh_full; [apply wf_run | assumption |].
    unfold CONFIG.MAX_CACHE_SIZE. lia. }
  split.
  { intros Hk Hroom. apply set_fresh_below; [assumption|].
    unfold CONFIG.MAX_CACHE_SIZE. lia. }
  split; [apply get_cache_cases | apply fifo_distinct_sets].
Qed.

Lemma cache_bounded_fifo_witness :
  (JsMap.get "z" (run Samples.full_ops) = None
   /\ JsMap.size (run Samples.full_ops) + 1 > 50
   /\ NoDup (map entry_key (Samples.fifty ++ [(50, "z", VNull)])))
  /\ JsMap.size (run Samples.full_ops) <= 50
  /\ (exists k0 it0 rest,
        run Samples.full_ops = (k0, it0) :: rest
        /\ set 50 "z" VNull (run Samples.full_ops) = rest ++ [("z", mkItem VNull 50)]
        /\ JsMap.get k0 (set 50 "z" VNull (run Samples.full_ops)) = None)
  /\ keys (run (sets (Samples.fifty ++ [(50, "z", VNull)])))
     = skipn 1 (map entry_key (Samples.fifty ++ [(50, "z", VNull)])).
Proof.
  assert (H1 : JsMap.get "z" (run Samples.full_ops) = None) by (vm_compute; reflexivity).
  assert (H2 : JsMap.size (run Samples.full_ops) + 1 > 50) by (vm_compute; reflexivity).
  assert (H3 : NoDup (map entry_key (Samples.fifty ++ [(50, "z", VNull)]))).
  { apply JsMapFacts.distinct_NoDup. vm_compute. reflexivity. }
  pose proof (cache_bounded_fifo Samples.full_ops 50 "z" VNull
                (Samples.fifty ++ [(50, "z", VNull)])) as (Hsize & Hevict & _ & _ & Hfifo).
  split; [repeat split; assumption|].
  split; [exact Hsize|].
  split; [exact (Hevict H1 H2) | exact (Hfifo H3)].
Defined.

(** C4, as stated, fails: "alpha" is set, then "beta", then "alpha"
    again. The second [set] of "alpha" refreshes its timestamp but leaves
    it in front of "beta", which is not what deleting and re-inserting
    gives; once the cache is full, the next insertion evicts "alpha"
    while "beta", inserted before "alpha" was set again, stays. *)
Lemma reset_is_not_delete_then_insert :
  let c := run [OpSet 0 "alpha" VNull; OpSet 1 "beta" VNull] in
  keys (set 2 "alpha" (VBool true) c) = ["alpha"; "beta"]
  /\ keys (JsMap.set "alpha" (mkItem (VBool true) 2) (JsMap.delete "alpha" c))
     = ["beta"; "alpha"]
  /\ JsMap.get "alpha" (set 2 "alpha" (VBool true) c) = Some (mkItem (VBool true) 2)
  /\ JsMap.size (run (removelast Samples.reset_ops)) = 50
  /\ JsMap.get "alpha" (run Samples.reset_ops) = None
  /\ JsMap.get "beta" (run Samples.reset_ops) = Some (mkItem VNull 1).
Proof. vm_compute. repeat split. Qed.

(** C4, amended. [set(k, v)] on a key that is present refreshes the
    value and the timestamp of [k] and leaves [k] where it stands in the
    insertion order: below capacity the order of the keys is unchanged;
    at capacity the first key is evicted and [k] keeps its place among
    the others, and only when [k] itself is that first key does it come
    back as the newest. *)
Theorem reset_keeps_position (c : cache) (k : string) (v : value) (now : Z) (old : item) :
  JsMap.wf c -> JsMap.get k c = Some old ->
  JsMap.get k (set now k v c) = Some (mkItem v now)
  /\ (JsMap.size c < 50 -> keys (set now k v c) = keys c)
  /\ (JsMap.size c >= 50 -> JsMap.first_key c <> Some k ->
      keys (set now k v c) = tl (keys c))
  /\ (JsMap.size c >= 50 -> JsMap.first_key c = Some k ->
      keys (set now k v c) = tl (keys c) ++ [k]).
Proof.
  intros Hwf Hget. split; [apply get_set_item|].
  split; [|split].
  - intros Hlt. unfold set, keys. rewrite limit_below by assumption.
    now apply JsMapFacts.keys_set_present with (v0 := old).
  - intros Hfull Hfirst. unfold set, keys. rewrite limit_full by assumption.
    destruct c as [|[k0 it0] rest]; [discriminate|].
    simpl in Hget, Hfirst |- *.
    destruct (String.eqb_spec k0 k) as [->|Hne]; [congruence|].
    now apply JsMapFacts.keys_set_present with (v0 := old).
  - intros Hfull Hfirst. unfold set, keys. rewrite limit_full by assumption.
    destruct c as [|[k0 it0] rest]; [discriminate|].
    simpl in Hfirst. injection Hfirst as ->. simpl.
    rewrite JsMapFacts.set_fresh.
    + unfold JsMap.keys. rewrite map_app. reflexivity.
    + apply JsMapFacts.get_None_iff. unfold JsMap.wf in Hwf. simpl in Hwf.
      now inversion Hwf.
Qed.

Lemma reset_keeps_position_witness :
  let c := run [OpSet 0 "a" VNull; OpSet 1 "b" VNull] in
  (JsMap.wf c /\ JsMap.get "a" c = Some (mkItem VNull 0) /\ JsMap.size c < 50)
  /\ JsMap.get "a" (set 2 "a" (VBool true) c) = Some (mkItem (VBool true) 2)
  /\ keys (set 2 "a" (VBool true) c) = keys c.
Proof.
  intros c.
  assert (Hwf : JsMap.wf c) by apply wf_run.
  assert (Hget : JsMap.get "a" c = Some (mkItem VNull 0)) by reflexivity.
  assert (Hlt : JsMap.size c < 50) by reflexivity.
  destruct (reset_keeps_position c "a" (VBool true) 2 (mkItem VNull 0) Hwf Hget)
    as (Hnew & Hbelow & _).
  split; [repeat split; assumption|].
  split; [exact Hnew | exact (Hbelow Hlt)].
Defined.

(** C6. [get(k)] on an entry that is present but expired returns [null]
    and removes that one entry, the entries before and after it staying
    as they are; [get(k)] on a key that is absent returns [null] and
    leaves the cache untouched. Both are ordinary results of [get],
    which has no failing outcome. *)
Theorem get_miss_frame (now : Z) (k : string) (c : cache) :
  JsMap.wf c ->
  (forall it, JsMap.get k c = Some it -> now - timestamp it > 3600000 ->
     exists before after,
       c = before ++ (k, it) :: after
       /\ get now k c = (VNull, before ++ after)
       /\ JsMap.get k (before ++ after) = None
       /\ (forall k', k' <> k -> JsMap.get k' (before ++ after) = JsMap.get k' c))
  /\ (JsMap.get k c = None -> get now k c = (VNull, c)).
Proof.
  intros Hwf. split.
  - intros it Hget Hexp.
    destruct (JsMapFacts.delete_split c k it Hwf Hget) as (before & after & Hc & Hd).
    exists before, after. rewrite <- Hd.
    split; [assumption|]. split; [now apply (get_expired now k c it)|].
    split; [apply JsMapFacts.get_delete_same|].
    intros k' Hne. apply JsMapFacts.get_delete_other. congruence.
  - apply get_absent.
Qed.

Lemma get_miss_frame_witness :
  let c := run [OpSet 0 "a" VNull; OpSet 1 "b" VNull; OpSet 2 "c" VNull] in
  (JsMap.wf c /\ JsMap.get "b" c = Some (mkItem VNull 1) /\ 3600002 - 1 > 3600000
   /\ JsMap.get "d" c = None)
  /\ (exists before after,
        c = before ++ ("b", mkItem VNull 1) :: after
        /\ get 3600002 "b" c = (VNull, before ++ after))
  /\ get 3600002 "d" c = (VNull, c).
Proof.
  intros c.
  assert (Hwf : JsMap.wf c) by apply wf_run.
  assert (Hb : JsMap.get "b" c = Some (mkItem VNull 1)) by reflexivity.
  assert (Hexp : 3600002 - 1 > 3600000) by lia.
  assert (Hd : JsMap.get "d" c = None) by reflexivity.
  split; [repeat split; assumption|].
  split.
  - destruct (proj1 (get_miss_frame 3600002 "b" c Hwf) _ Hb Hexp)
      as (before & after & Hc & Hg & _).
    exists before, after. split; assumption.
  - exact (proj2 (get_miss_frame 3600002 "d" c Hwf) Hd).
Defined.

End CacheFacts.


(** ** [fetchWord] *)

Module APIFacts.
Import APIService.
Implicit Types (w : world) (word : string) (net : network).

Lemma fetch_and_store_requests now net word c log :
  requests (snd (fetch_and_store now net word c log)) = log ++ [request_url word].
Proof.
  unfold fetch_and_store.
  destruct (net (request_url word)) as [resp | e]; [|reflexivity].
  destruct (negb (ok resp)).
  - destruct (status resp =? 404); reflexivity.
  - destruct (json resp); reflexivity.
Qed.

(** What [fetchWord] does after a miss. *)
Lemma fetchWord_miss t t' net word w :
  ToBoolean (fst (CacheManager.get t word (cache w))) = false ->
  fetchWord t t' net word w
  = match fetch_and_store t' net word (snd (CacheManager.get t word (cache w)))
                          (requests w) with
    | (Rejected e, w') => (Rejected (on_error e), w')
    | (Fulfilled d, w') => (Fulfilled d, w')
    end.
Proof.
  unfold fetchWord. destruct (CacheManager.get t word (cache w)) as [cd c1].
  simpl. now intros ->.
Qed.

Lemma fetchWord_miss_requests t t' net word w :
  ToBoolean (fst (CacheManager.get t word (cache w))) = false ->
  requests (snd (fetchWord t t' net word w)) = requests w ++ [request_url word].
Proof.
  intros Hmiss. rewrite fetchWord_miss by assumption.
  rewrite <- (fetch_and_store_requests t' net word
                (snd (CacheManager.get t word (cache w))) (requests w)).
  destruct (fetch_and_store t' net word _ _) as [[d | e] w']; reflexivity.
Qed.

Lemma fetchWord_hit t t' net word w it :
  JsMap.get word (cache w) = Some it ->
  t - CacheManager.timestamp it <= 3600000 ->
  ToBoolean (CacheManager.data it) = true ->
  fetchWord t t' net word w = (Fulfilled (CacheManager.data it), w).
Proof.
  intros Hget Hfresh Htrue. unfold fetchWord.
  rewrite (CacheFacts.get_valid t word (cache w) it Hget Hfresh).
  rewrite Htrue. now destruct w.
Qed.

Lemma fetchWord_success t t' net word w resp d :
  ToBoolean (fst (CacheManager.get t word (cache w))) = false ->
  net (request_url word) = Fulfilled resp -> ok resp = true ->
  json resp = Fulfilled d ->
  fetchWord t t' net word w
  = (Fulfilled d,
     mkWorld (CacheManager.set t' word d (snd (CacheManager.get t word (cache w))))
             (requests w ++ [request_url word])).
Proof.
  intros Hmiss Hnet Hok Hjson. rewrite fetchWord_miss by assumption.
  unfold fetch_and_store. now rewrite Hnet, Hok, Hjson.
Qed.

(** C1, as stated, fails: the upstream answers the first lookup of
    "hello" with status 200 and the JSON payload [null], which is
    cached; the second lookup, 10 ms later, finds that entry valid, and
    still goes to the network and returns what the network says. *)
Lemma valid_entry_refetched :
  let r1 := fetchWord 0 10 (Samples.net_ok VNull) "hello" Samples.fresh_world in
  let r2 := fetchWord 20 30 (Samples.net_ok Samples.hello_entry) "hello" (snd r1) in
  JsMap.get "hello" (cache (snd r1)) = Some (CacheManager.mkItem VNull 10)
  /\ 20 - 10 <= 3600000
  /\ fst r2 = Fulfilled Samples.hello_entry
  /\ requests (snd r2) = [request_url "hello"; request_url "hello"].
Proof. vm_compute. repeat split. discriminate. Qed.

(** C1, amended. For every key with a valid cache entry whose value is
    truthy, [fetchWord] returns the cached value, issues no request and
    leaves the cache as it is. Consequently, when a first [fetchWord]
    misses and the upstream answers it with a success status and a
    truthy payload, a second [fetchWord] for the same word within
    [CACHE_DURATION] of the first returns the same payload, and the two
    calls together have issued exactly one request. *)
Theorem truthy_hit_no_request w word net1 net2 (t1 t1' t2 t2' : Z) :
  (forall it,
     JsMap.get word (cache w) = Some it ->
     t1 - CacheManager.timestamp it <= 3600000 ->
     ToBoolean (CacheManager.data it) = true ->
     fetchWord t1 t1' net1 word w = (Fulfilled (CacheManager.data it), w))
  /\ (forall resp d,
       ToBoolean (fst (CacheManager.get t1 word (cache w))) = false ->
       net1 (request_url word) = Fulfilled resp -> ok resp = true ->
       json resp = Fulfilled d -> ToBoolean d = true ->
       t2 - t1' <= 3600000 ->
       fst (fetchWord t1 t1' net1 word w) = Fulfilled d
       /\ fst (fetchWord t2 t2' net2 word (snd (fetchWord t1 t1' net1 word w)))
          = Fulfilled d
       /\ requests (snd (fetchWord t2 t2' net2 word
                           (snd (fetchWord t1 t1' net1 word w))))
          = requests w ++ [request_url word]).
Proof.
  split.
  - intros it. apply fetchWord_hit.
  - intros resp d Hmiss Hnet Hok Hjson Htrue Ht.
    rewrite (fetchWord_success t1 t1' net1 word w resp d Hmiss Hnet Hok Hjson).
    cbn [fst snd].
    rewrite (fetchWord_hit t2 t2' net2 word _ (CacheManager.mkItem d t1')).
    + repeat split.
    + cbn [cache]. apply CacheFacts.get_set_item.
    + cbn [CacheManager.timestamp]. exact Ht.
    + exact Htrue.
Qed.

Lemma truthy_hit_no_request_witness :
  (JsMap.get "hello" (cache Samples.hello_world)
   = Some (CacheManager.mkItem Samples.hello_entry 0)
   /\ 5 - 0 <= 3600000
   /\ ToBoolean Samples.hello_entry = true
   /\ ToBoolean (fst (CacheManager.get 5 "hello" (cache Samples.fresh_world))) = false
   /\ ok (mkResponse 200 (Fulfilled Samples.hello_entry)) = true
   /\ 3600006 - 6 <= 3600000)
  /\ fetchWord 5 6 Samples.net_down "hello" Samples.hello_world
     = (Fulfilled Samples.hello_entry, Samples.hello_world)
  /\ requests (snd (fetchWord 3600006 3600007 Samples.net_down "hello"
                     (snd (fetchWord 5 6 (Samples.net_ok Samples.hello_entry)
                                     "hello" Samples.fresh_world))))
     = [request_url "hello"].
Proof.
  assert (H1 : JsMap.get "hello" (cache Samples.hello_world)
               = Some (CacheManager.mkItem Samples.hello_entry 0)) by reflexivity.
  assert (H2 : 5 - 0 <= 3600000) by lia.
  assert (H3 : ToBoolean Samples.hello_entry = true) by reflexivity.
  assert (H4 : ToBoolean (fst (CacheManager.get 5 "hello" (cache Samples.fresh_world)))
               = false) by reflexivity.
  assert (H5 : ok (mkResponse 200 (Fulfilled Samples.hello_entry)) = true) by reflexivity.
  assert (H6 : 3600006 - 6 <= 3600000) by lia.
  split; [repeat split; assumption|].
  split.
  - exact (proj1 (truthy_hit_no_request Samples.hello_world "hello"
                    Samples.net_down Samples.net_down 5 6 7 8) _ H1 H2 H3).
  - exact (proj2 (proj2 (proj2 (truthy_hit_no_request Samples.fresh_world "hello"
                    (Samples.net_ok Samples.hello_entry) Samples.net_down
                    5 6 3600006 3600007) _ _ H4 eq_refl H5 eq_refl H3 H6))).
Defined.

(** C10. The fast path of [fetchWord] tests the truthiness of what
    [CacheManager.get] returns, not the presence of an entry: when the
    valid, unexpired entry of a key stores a falsy value, such as
    [null], [0], the empty string or [false], the lookup itself
    succeeds and returns that value, and [fetchWord] goes on as after a
    miss and issues a network request. *)
Theorem falsy_hit_refetches w word net (t t' : Z) (it : CacheManager.item) :
  JsMap.get word (cache w) = Some it ->
  t - CacheManager.timestamp it <= 3600000 ->
  ToBoolean (CacheManager.data it) = false ->
  CacheManager.get t word (cache w) = (CacheManager.data it, cache w)
  /\ requests (snd (fetchWord t t' net word w)) = requests w ++ [request_url word]
  /\ fetchWord t t' net word w
     = match fetch_and_store t' net word (cache w) (requests w) with
       | (Rejected e, w') => (Rejected (on_error e), w')
       | (Fulfilled d, w') => (Fulfilled d, w')
       end
  /\ ToBoolean VNull = false /\ ToBoolean (VNumber (S754_zero false)) = false
  /\ ToBoolean (VString "") = false /\ ToBoolean (VBool false) = false.
Proof.
  intros Hget Hfresh Hfalsy.
  pose proof (CacheFacts.get_valid t word (cache w) it Hget Hfresh) as Hhit.
  assert (Hmiss : ToBoolean (fst (CacheManager.get t word (cache w))) = false)
    by now rewrite Hhit.
  split; [exact Hhit|].
  split; [now apply fetchWord_miss_requests|].
  split; [|repeat split].
  rewrite fetchWord_miss by assumption. now rewrite Hhit.
Qed.

Lemma falsy_hit_refetches_witness :
  let w := mkWorld [("hello", CacheManager.mkItem (VNumber (S754_zero false)) 0)] [] in
  (JsMap.get "hello" (cache w) = Some (CacheManager.mkItem (VNumber (S754_zero false)) 0)
   /\ 100 - 0 <= 3600000
   /\ ToBoolean (VNumber (S754_zero false)) = false)
  /\ requests (snd (fetchWord 100 200 Samples.net_404 "hello" w))
     = [request_url "hello"].
Proof.
  intros w.
  assert (H1 : JsMap.get "hello" (cache w)
               = Some (CacheManager.mkItem (VNumber (S754_zero false)) 0)) by reflexivity.
  assert (H2 : 100 - 0 <= 3600000) by lia.
  assert (H3 : ToBoolean (VNumber (S754_zero false)) = false) by reflexivity.
  split; [repeat split; assumption|].
  exact (proj1 (proj2 (falsy_hit_refetches w "hello" Samples.net_404 100 200
                         (CacheManager.mkItem (VNumber (S754_zero false)) 0) H1 H2 H3))).
Defined.

(** C5, as stated, fails: the entry of "hello" has expired when
    [fetchWord] is called and the upstream answers 404. The error is
    raised, and the entry that was in the cache before the call is gone. *)
Lemma failure_purges_expired_entry :
  let r := fetchWord 3600001 3600002 Samples.net_404 "hello" Samples.hello_world in
  JsMap.get "hello" (cache Samples.hello_world)
  = Some (CacheManager.mkItem Samples.hello_entry 0)
  /\ fst r = Rejected (Error NOT_FOUND_MESSAGE)
  /\ JsMap.get "hello" (cache (snd r)) = None
  /\ cache (snd r) <> cache Samples.hello_world.
Proof. vm_compute. repeat split. discriminate. Qed.

(** C5, amended. When the request issued by [fetchWord] fails, by a 404
    status, by another status outside 200-299 or by a rejected [fetch],
    [fetchWord] raises the corresponding error ("Word not found...",
    "Network error...", and for a transport failure "Unable to
    connect..." or the error of [fetch] itself) and adds or changes no
    entry: the cache is the one left by the lookup [CacheManager.get]
    that opened the call, so the entries of all other keys are as
    before, and the cache as a whole is what it was unless the entry of
    the word had expired, in which case that entry has been deleted. *)
Theorem failure_leaves_cache w word net (t t' : Z) :
  ToBoolean (fst (CacheManager.get t word (cache w))) = false ->
  match net (request_url word) with
  | Rejected _ => True
  | Fulfilled resp => ok resp = false
  end ->
  fst (fetchWord t t' net word w)
  = Rejected match net (request_url word) with
             | Rejected e => on_error e
             | Fulfilled resp =>
                 if status resp =? 404 then Error NOT_FOUND_MESSAGE
                 else Error NETWORK_MESSAGE
             end
  /\ cache (snd (fetchWord t t' net word w)) = snd (CacheManager.get t word (cache w))
  /\ (forall k, k <> word ->
      JsMap.get k (cache (snd (fetchWord t t' net word w))) = JsMap.get k (cache w))
  /\ ((forall it, JsMap.get word (cache w) = Some it ->
                 t - CacheManager.timestamp it <= 3600000) ->
      cache (snd (fetchWord t t' net word w)) = cache w).
Proof.
  intros Hmiss Hfail.
  assert (Hcache : cache (snd (fetchWord t t' net word w))
                   = snd (CacheManager.get t word (cache w))).
  { rewrite fetchWord_miss by assumption. unfold fetch_and_store.
    destruct (net (request_url word)) as [resp | e]; [|reflexivity].
    rewrite Hfail. simpl. destruct (status resp =? 404); reflexivity. }
  split; [|split; [exact Hcache | split]].
  - rewrite fetchWord_miss by assumption. unfold fetch_and_store.
    destruct (net (request_url word)) as [resp | e]; [|reflexivity].
    rewrite Hfail. simpl. destruct (status resp =? 404); reflexivity.
  - intros k Hne. rewrite Hcache.
    destruct (CacheFacts.get_cache_cases t word (cache w)) as [-> | ->];
      [reflexivity|].
    apply JsMapFacts.get_delete_other. congruence.
  - intros Hvalid. rewrite Hcache.
    destruct (JsMap.get word (cache w)) as [it|] eqn:Hget.
    + now rewrite (CacheFacts.get_valid t word (cache w) it Hget (Hvalid it eq_refl)).
    + now rewrite CacheFacts.get_absent.
Qed.

Lemma failure_leaves_cache_witness :
  (ToBoolean (fst (CacheManager.get 5 "zzzxnotaword" (cache Samples.hello_world)))
   = false
   /\ ok (mkResponse 404 (Fulfilled VNull)) = false)
  /\ fst (fetchWord 5 6 Samples.net_404 "zzzxnotaword" Samples.hello_world)
     = Rejected (Error NOT_FOUND_MESSAGE)
  /\ cache (snd (fetchWord 5 6 Samples.net_404 "zzzxnotaword" Samples.hello_world))
     = cache Samples.hello_world.
Proof.
  assert (H1 : ToBoolean (fst (CacheManager.get 5 "zzzxnotaword"
                                 (cache Samples.hello_world))) = false)
    by reflexivity.
  assert (H2 : ok (mkResponse 404 (Fulfilled VNull)) = false) by reflexivity.
  split; [split; assumption|].
  destruct (failure_leaves_cache Samples.hello_world "zzzxnotaword"
              Samples.net_404 5 6 H1 eq_refl) as (Herr & Hcache & _).
  split; [exact Herr | exact Hcache].
Defined.

End APIFacts.


(** ** The service worker *)

Module WorkerFacts.
Import ServiceWorker.

Section Platform.
Context (origin resolve : string -> string).

Local Abbreviation separated := (ServiceWorker.separated origin).
Local Abbreviation keeps := (ServiceWorker.keeps origin).

(** The worker is not served from the origin of the definitions API:
    no static asset resolves to a URL of that origin. *)
Hypothesis assets_not_api :
  Forall (fun a => origin (resolve a) <> API_ORIGIN) STATIC_ASSETS.

Lemma get_Some_In (V : Type) (m : JsMap.t V) k v : JsMap.get k m = Some v -> In (k, v) m.
Proof.
  induction m as [|[k' v'] m IH]; simpl; [discriminate|].
  destruct (String.eqb_spec k' k) as [->|Hne].
  - intros [= ->]. now left.
  - intros H. right. now apply IH.
Qed.

Lemma in_set_cases (V : Type) (m : JsMap.t V) k v k' v' :
  In (k', v') (JsMap.set k v m) -> (k' = k /\ v' = v) \/ In (k', v') m.
Proof.
  induction m as [|[k0 v0] m IH]; simpl.
  - intros [[= <- <-]|[]]. now left.
  - destruct (String.eqb k0 k); simpl.
    + intros [[= <- <-]|H]; auto.
    + intros [H|H]; auto. destruct (IH H); auto.
Qed.

Lemma in_delete (V : Type) (m : JsMap.t V) k e : In e (JsMap.delete k m) -> In e m.
Proof. unfold JsMap.delete. intros H. now apply filter_In in H. Qed.

Lemma separated_empty : separated (JsMap.empty Cache).
Proof. split; [constructor | intros name c url []]. Qed.

Lemma separated_open name st : separated st -> separated (caches_open name st).
Proof.
  intros [Hwf Hsep]. unfold caches_open.
  destruct (JsMap.get name st) as [c|] eqn:Hget; [now split|].
  split.
  - pose proof (JsMapFacts.wf_set st name (JsMap.empty Response) Hwf) as Hset.
    rewrite (JsMapFacts.set_fresh st name (JsMap.empty Response) Hget) in Hset.
    exact Hset.
  - intros n c url Hin. apply in_app_or in Hin.
    destruct Hin as [Hin | [[= <- <-] | []]]; [now apply Hsep | reflexivity].
Qed.

Lemma separated_put name url r st :
  name = RUNTIME_CACHE \/ origin url <> API_ORIGIN ->
  separated st -> separated (cache_put name url r st).
Proof.
  intros Hok [Hwf Hsep]. unfold cache_put.
  destruct (JsMap.get name st) as [c|] eqn:Hget; [|now split].
  split; [now apply JsMapFacts.wf_set|].
  intros n c' url' Hin Hn Hurl.
  apply in_set_cases in Hin. destruct Hin as [[-> ->] | Hin]; [|now apply (Hsep n)].
  destruct Hok as [-> | Hok]; [congruence|].
  rewrite JsMapFacts.get_set_other by congruence.
  apply (Hsep name); [now apply get_Some_In | assumption | assumption].
Qed.

Lemma separated_put_all name rs st :
  name = RUNTIME_CACHE \/ Forall (fun ur => origin (fst ur) <> API_ORIGIN) rs ->
  separated st -> separated (put_all name rs st).
Proof.
  unfold put_all. revert st. induction rs as [|[u r] rs IH]; simpl; intros st Hok Hst.
  - assumption.
  - apply IH.
    + destruct Hok as [-> | Hok]; [now left | right; now inversion Hok].
    + apply separated_put; [|assumption].
      destruct Hok as [-> | Hok]; [now left | right; now inversion Hok].
Qed.

Lemma separated_delete name st : separated st -> separated (caches_delete name st).
Proof.
  intros [Hwf Hsep]. split; [now apply JsMapFacts.wf_delete|].
  intros n c url Hin. apply in_delete in Hin. now apply Hsep.
Qed.

Lemma separated_deletes (keep : string -> bool) names st :
  separated st ->
  separated (fold_left (fun s n => if keep n then caches_delete n s else s) names st).
Proof.
  revert st. induction names as [|n names IH]; simpl; intros st Hst; [assumption|].
  apply IH. destruct (keep n); [now apply separated_delete | assumption].
Qed.

(** The URLs fetched by [cache.addAll] are the ones it was given. *)
Lemma fetch_all_urls e urls rs :
  fetch_all e urls = Fulfilled rs -> map fst rs = urls.
Proof.
  revert rs. induction urls as [|u urls IH]; simpl; intros rs.
  - now intros [= <-].
  - destruct (fetch e u) as [r|err]; [|discriminate].
    destruct (response_ok r); [|discriminate].
    destruct (fetch_all e urls) as [rs'|err]; [|discriminate].
    intros [= <-]. simpl. f_equal. now apply IH.
Qed.

Lemma keeps_resolved (A : Type) (a : A) : keeps (resolved a).
Proof. intros st H. exact H. Qed.

Lemma keeps_reading (A : Type) (f : CacheStorage -> A) : keeps (reading f).
Proof. intros st H. exact H. Qed.

Lemma keeps_effect f : (forall st, separated st -> separated (f st)) -> keeps (effect f).
Proof. intros Hf st H. now apply Hf. Qed.

Lemma keeps_and_then (A B : Type) (p : promise A) (k : A -> promise B) :
  keeps p -> (forall a, keeps (k a)) -> keeps (and_then p k).
Proof.
  intros Hp Hk st H. unfold and_then. specialize (Hp st H).
  destruct (p st) as [[a|e] st']; simpl in *; [now apply Hk | assumption].
Qed.

Lemma keeps_catch (A : Type) (p : promise A) (h : error -> promise A) :
  keeps p -> (forall e, keeps (h e)) -> keeps (catch p h).
Proof.
  intros Hp Hh st H. unfold catch. specialize (Hp st H).
  destruct (p st) as [[a|e] st']; simpl in *; [assumption | now apply Hh].
Qed.

Lemma keeps_network (e : env) (request : string) :
  keeps (fun st : CacheStorage => (fetch e request, st)).
Proof. intros st H. exact H. Qed.

Lemma keeps_put_unawaited e name url r :
  name = RUNTIME_CACHE \/ origin url <> API_ORIGIN ->
  keeps (put_unawaited e name url r).
Proof.
  intros Hok. apply keeps_effect. intros st Hst.
  destruct (put_ok e); [now apply separated_put | assumption].
Qed.

Lemma keeps_addAll e :
  keeps (cache_addAll e CACHE_NAME (map resolve STATIC_ASSETS)).
Proof.
  intros st Hst. unfold cache_addAll.
  destruct (fetch_all e (map resolve STATIC_ASSETS)) as [rs|err] eqn:Hf; [|assumption].
  destruct (put_ok e); [|assumption]. simpl.
  apply separated_put_all; [|assumption]. right.
  apply fetch_all_urls in Hf.
  apply Forall_forall. intros [u r] Hin. simpl.
  assert (Hu : In u (map resolve STATIC_ASSETS)).
  { rewrite <- Hf. now apply (in_map fst rs (u, r)). }
  apply in_map_iff in Hu. destruct Hu as (a & Hra & Ha). rewrite <- Hra.
  exact (proj1 (Forall_forall _ _) assets_not_api a Ha).
Qed.

Lemma keeps_install e : keeps (install resolve e).
Proof.
  unfold install. apply keeps_catch.
  - apply keeps_and_then.
    + apply keeps_effect. intros st. apply separated_open.
    + intros _. apply keeps_and_then; [apply keeps_addAll|].
      intros _. apply keeps_resolved.
  - intros err. apply keeps_resolved.
Qed.

Lemma keeps_activate : keeps activate.
Proof.
  unfold activate. apply keeps_and_then; [apply keeps_reading|].
  intros names. apply keeps_and_then; [|intros _; apply keeps_resolved].
  apply keeps_effect. intros st. apply separated_deletes.
Qed.

Lemma keeps_networkFirst e request : keeps (networkFirstStrategy e request).
Proof.
  unfold networkFirstStrategy. apply keeps_catch.
  - apply keeps_and_then; [apply keeps_network|].
    intros nr. apply keeps_and_then; [|intros _; apply keeps_resolved].
    destruct (status nr =? 200); [|apply keeps_resolved].
    apply keeps_and_then.
    + apply keeps_effect. intros st. apply separated_open.
    + intros _. apply keeps_put_unawaited. now left.
  - intros err. apply keeps_and_then; [apply keeps_reading|].
    intros [r|]; apply keeps_resolved.
Qed.

Lemma keeps_cacheFirst e request :
  origin request <> API_ORIGIN -> keeps (cacheFirstStrategy resolve e request).
Proof.
  intros Hstatic. unfold cacheFirstStrategy. apply keeps_catch.
  - apply keeps_and_then; [apply keeps_reading|].
    intros [r|]; [apply keeps_resolved|].
    apply keeps_and_then; [apply keeps_network|].
    intros nr. apply keeps_and_then; [|intros _; apply keeps_resolved].
    destruct (status nr =? 200); [|apply keeps_resolved].
    apply keeps_and_then.
    + apply keeps_effect. intros st. apply separated_open.
    + intros _. apply keeps_put_unawaited. now right.
  - intros err. apply keeps_reading.
Qed.

Lemma keeps_on_fetch e request : keeps (on_fetch origin resolve e request).
Proof.
  unfold on_fetch. destruct (String.eqb_spec (origin request) API_ORIGIN) as [Heq|Hne].
  - apply keeps_and_then; [apply keeps_networkFirst|].
    intros r. apply keeps_resolved.
  - now apply keeps_cacheFirst.
Qed.

Lemma keeps_on_message type : keeps (on_message type).
Proof.
  unfold on_message. destruct (String.eqb type "CLEAR_CACHE"); [|apply keeps_resolved].
  apply keeps_and_then; [apply keeps_reading|].
  intros names. apply keeps_effect. intros st.
  apply (separated_deletes (fun _ => true)).
Qed.

Lemma separated_handle st ev : separated st -> separated (handle origin resolve st ev).
Proof.
  destruct ev as [e | | e request | type]; simpl.
  - apply keeps_install.
  - apply keeps_activate.
  - apply keeps_on_fetch.
  - apply keeps_on_message.
Qed.

Lemma separated_run events : separated (run origin resolve events).
Proof.
  unfold run. generalize separated_empty. generalize (JsMap.empty Cache).
  induction events as [|ev events IH]; simpl; intros st Hst; [assumption|].
  apply IH. now apply separated_handle.
Qed.

Lemma caches_match_none url st :
  (forall name c, In (name, c) st -> JsMap.get url c = None) ->
  caches_match url st = None.
Proof.
  induction st as [|[n c] st IH]; simpl; intros H; [reflexivity|].
  rewrite (H n c) by now left. apply IH. intros name c' Hin. apply (H name). now right.
Qed.

(** For a request to the API, [caches.match] finds what the runtime
    store holds, and nothing else. *)
Lemma match_is_runtime_lookup url st :
  separated st -> origin url = API_ORIGIN ->
  caches_match url st = runtime_lookup url st.
Proof.
  intros [Hwf Hsep] Hurl. unfold runtime_lookup.
  induction st as [|[n c] st IH]; simpl; [reflexivity|].
  destruct (String.eqb_spec n RUNTIME_CACHE) as [->|Hne].
  - destruct (JsMap.get url c) as [r|]; [reflexivity|].
    apply caches_match_none. intros name c' Hin.
    apply (Hsep name); [now right | | assumption].
    intros ->. unfold JsMap.wf in Hwf. simpl in Hwf. inversion Hwf as [|? ? Hnin _].
    apply Hnin. now apply (in_map fst st (RUNTIME_CACHE, c')).
  - rewrite (Hsep n c url) by (auto; now left).
    apply IH.
    + now apply (JsMapFacts.wf_tail st n c).
    + intros name c' url' Hin. apply Hsep. now right.
Qed.

(** C7. In every state the worker can reach, [networkFirstStrategy] for
    a request to the API whose [fetch] throws returns the response the
    runtime store holds for that very request when there is one, and
    otherwise returns (it does not throw) the offline response, whose
    status is 503 "Service Unavailable"; in neither case is the failure
    of [fetch] passed on, and the storage is left as it is. The fetch
    handler hands exactly that response to [respondWith]. *)
Theorem networkFirst_offline (events : list event) (e : env) (request : string)
    (err : error) :
  origin request = API_ORIGIN ->
  fetch e request = Rejected err ->
  networkFirstStrategy e request (run origin resolve events)
  = (Fulfilled match runtime_lookup request (run origin resolve events) with
               | Some stored => stored
               | None => offline_response
               end,
     run origin resolve events)
  /\ on_fetch origin resolve e request (run origin resolve events)
     = (Fulfilled (Some match runtime_lookup request (run origin resolve events) with
                        | Some stored => stored
                        | None => offline_response
                        end),
        run origin resolve events)
  /\ status offline_response = 503
  /\ statusText offline_response = "Service Unavailable".
Proof.
  intros Hapi Hdown.
  assert (Hnf : networkFirstStrategy e request (run origin resolve events)
                = (Fulfilled match runtime_lookup request (run origin resolve events) with
                             | Some stored => stored
                             | None => offline_response
                             end,
                   run origin resolve events)).
  { unfold networkFirstStrategy, catch, and_then, reading. rewrite Hdown.
    rewrite (match_is_runtime_lookup request _ (separated_run events) Hapi).
    now destruct (runtime_lookup request (run origin resolve events)). }
  split; [exact Hnf|]. split; [|split; reflexivity].
  unfold on_fetch. rewrite Hapi, String.eqb_refl.
  unfold and_then at 1. now rewrite Hnf.
Qed.

(** C8, amended. When a static request misses the store and its [fetch]
    throws, [cacheFirstStrategy] returns what the store holds for
    [./index.html]: the stored page when there is one, and otherwise
    [undefined]. The failure is logged and is not thrown to the caller,
    and the storage is left as it is. *)
Theorem cacheFirst_offline (e : env) (request : string) (st : CacheStorage)
    (err : error) :
  caches_match request st = None ->
  fetch e request = Rejected err ->
  cacheFirstStrategy resolve e request st
  = (Fulfilled (caches_match (resolve "./index.html") st), st).
Proof.
  intros Hmiss Hdown.
  unfold cacheFirstStrategy, catch, and_then, reading.
  now rewrite Hmiss, Hdown.
Qed.

(** The promise that [install] hands to [event.waitUntil] is always
    fulfilled. *)
Lemma install_never_rejects (e : env) (st : CacheStorage) :
  fst (install resolve e st) = Fulfilled tt.
Proof.
  unfold install, catch, and_then, effect, resolved, cache_addAll.
  destruct (fetch_all e (map resolve STATIC_ASSETS)); [|reflexivity].
  destruct (put_ok e); reflexivity.
Qed.

End Platform.

Lemma sample_assets_not_api :
  Forall (fun a => Samples.sample_origin (Samples.sample_resolve a) <> API_ORIGIN)
         STATIC_ASSETS.
Proof. repeat constructor; discriminate. Qed.

Lemma networkFirst_offline_witness :
  let st := run Samples.sample_origin Samples.sample_resolve Samples.sample_events in
  (Samples.sample_origin Samples.hello_url = API_ORIGIN
   /\ Samples.sample_origin Samples.world_url = API_ORIGIN
   /\ fetch Samples.env_offline Samples.hello_url
      = Rejected (mkError "TypeError" "Failed to fetch"))
  /\ networkFirstStrategy Samples.env_offline Samples.hello_url st
     = (Fulfilled (Samples.page Samples.hello_url), st)
  /\ networkFirstStrategy Samples.env_offline Samples.world_url st
     = (Fulfilled offline_response, st).
Proof.
  intros st.
  assert (H1 : Samples.sample_origin Samples.hello_url = API_ORIGIN) by reflexivity.
  assert (H2 : Samples.sample_origin Samples.world_url = API_ORIGIN) by reflexivity.
  assert (H3 : fetch Samples.env_offline Samples.hello_url
               = Rejected (mkError "TypeError" "Failed to fetch")) by reflexivity.
  split; [repeat split; assumption|].
  split.
  - exact (proj1 (networkFirst_offline Samples.sample_origin Samples.sample_resolve
                    sample_assets_not_api Samples.sample_events Samples.env_offline
                    Samples.hello_url _ H1 H3)).
  - exact (proj1 (networkFirst_offline Samples.sample_origin Samples.sample_resolve
                    sample_assets_not_api Samples.sample_events Samples.env_offline
                    Samples.world_url _ H2 eq_refl)).
Defined.

(** C8, as stated, fails: the store is empty, so there is no baseline
    page, and [fetch] throws; [cacheFirstStrategy] does not throw, it
    returns [undefined]. *)
Lemma cacheFirst_returns_undefined :
  caches_match Samples.style_url (JsMap.empty Cache) = None
  /\ fetch Samples.env_offline Samples.style_url
     = Rejected (mkError "TypeError" "Failed to fetch")
  /\ caches_match (Samples.sample_resolve "./index.html") (JsMap.empty Cache) = None
  /\ cacheFirstStrategy Samples.sample_resolve Samples.env_offline Samples.style_url
       (JsMap.empty Cache)
     = (Fulfilled None, JsMap.empty Cache).
Proof. repeat split. Qed.

Lemma cacheFirst_offline_witness :
  let st := run Samples.sample_origin Samples.sample_resolve Samples.sample_events in
  (caches_match "https://dict.example/about.html" st = None
   /\ fetch Samples.env_offline "https://dict.example/about.html"
      = Rejected (mkError "TypeError" "Failed to fetch"))
  /\ cacheFirstStrategy Samples.sample_resolve Samples.env_offline
       "https://dict.example/about.html" st
     = (Fulfilled (Some (Samples.page "https://dict.example/index.html")), st).
Proof.
  intros st.
  assert (H1 : caches_match "https://dict.example/about.html" st = None) by reflexivity.
  assert (H2 : fetch Samples.env_offline "https://dict.example/about.html"
               = Rejected (mkError "TypeError" "Failed to fetch")) by reflexivity.
  split; [split; assumption|].
  exact (cacheFirst_offline Samples.sample_resolve Samples.env_offline
           "https://dict.example/about.html" st _ H1 H2).
Defined.

(** C9 on the code: when one asset of the manifest cannot be fetched,
    or when the store refuses the writes, [cache.addAll] rejects and
    stores nothing, the [catch] handler of the install listener logs the
    error, and the promise handed to [event.waitUntil] is fulfilled: the
    installation is accepted with a static store that holds none of the
    manifest. Whatever the platform does, that promise never rejects. *)
Theorem install_accepts_failed_caching :
  install Samples.sample_resolve Samples.env_no_style (JsMap.empty Cache)
  = (Fulfilled tt, [(CACHE_NAME, JsMap.empty Response)])
  /\ install Samples.sample_resolve Samples.env_no_space (JsMap.empty Cache)
     = (Fulfilled tt, [(CACHE_NAME, JsMap.empty Response)])
  /\ static_lookup (Samples.sample_resolve "./index.html")
       (snd (install Samples.sample_resolve Samples.env_no_style (JsMap.empty Cache)))
     = None
  /\ forall resolve e st, fst (install resolve e st) = Fulfilled tt.
Proof.
  split; [reflexivity|]. split; [reflexivity|]. split; [reflexivity|].
  apply install_never_rejects.
Qed.

End WorkerFacts.


(** ** More on the lookup cache *)

Module CacheMoreFacts.
Import CacheManager.
Implicit Types (c : cache) (k key : string) (it : item) (d v : value).

Lemma get_delete_Some (c : cache) k k' it :
  JsMap.get k (JsMap.delete k' c) = Some it -> JsMap.get k c = Some it.
Proof.
  destruct (String.eqb_spec k' k) as [->|Hne].
  - rewrite JsMapFacts.get_delete_same. discriminate.
  - now rewrite JsMapFacts.get_delete_other.
Qed.

Lemma get_limit_Some c k it :
  JsMap.get k (limit c) = Some it -> JsMap.get k c = Some it.
Proof.
  unfold limit. destruct (JsMap.size c >=? CONFIG.MAX_CACHE_SIZE); [|auto].
  destruct (JsMap.first_key c); [apply get_delete_Some | auto].
Qed.

Lemma get_after_get_Some now k' c k it :
  JsMap.get k (snd (get now k' c)) = Some it -> JsMap.get k c = Some it.
Proof.
  destruct (CacheFacts.get_cache_cases now k' c) as [-> | ->];
    [auto | apply get_delete_Some].
Qed.

(** X1. [set(k, v)] touches the entry of [k] and, when the cache is at
    capacity, the entry of the first key, and nothing else: every other
    key keeps its entry. At capacity the first key, when it is not [k]
    itself, is gone afterwards. *)
Theorem set_frame c (now : Z) k v k' :
  k' <> k ->
  (JsMap.size c < 50 \/ JsMap.first_key c <> Some k' ->
   JsMap.get k' (set now k v c) = JsMap.get k' c)
  /\ (JsMap.size c >= 50 -> JsMap.first_key c = Some k' ->
      JsMap.get k' (set now k v c) = None).
Proof.
  intros Hne. unfold set.
  rewrite JsMapFacts.get_set_other by congruence. split.
  - intros [Hlt | Hfirst].
    + now rewrite CacheFacts.limit_below.
    + unfold limit. destruct (JsMap.size c >=? CONFIG.MAX_CACHE_SIZE); [|reflexivity].
      destruct (JsMap.first_key c) as [k0|]; [|reflexivity].
      apply JsMapFacts.get_delete_other. congruence.
  - intros Hfull Hfirst. unfold limit, CONFIG.MAX_CACHE_SIZE.
    rewrite Z.geb_leb. destruct (Z.leb_spec 50 (JsMap.size c)); [|lia].
    rewrite Hfirst. apply JsMapFacts.get_delete_same.
Qed.

Lemma set_frame_witness :
  ("B" <> "zulu"
   /\ JsMap.first_key (run Samples.full_ops) <> Some "B"
   /\ JsMap.size (run Samples.full_ops) >= 50
   /\ JsMap.first_key (run Samples.full_ops) = Some "A")
  /\ JsMap.get "B" (set 99 "zulu" VNull (run Samples.full_ops))
     = JsMap.get "B" (run Samples.full_ops)
  /\ JsMap.get "A" (set 99 "zulu" VNull (run Samples.full_ops)) = None.
Proof.
  assert (H1 : "B" <> "zulu") by discriminate.
  assert (H2 : JsMap.first_key (run Samples.full_ops) <> Some "B")
    by (vm_compute; discriminate).
  assert (H3 : JsMap.size (run Samples.full_ops) >= 50) by (vm_compute; discriminate).
  assert (H4 : JsMap.first_key (run Samples.full_ops) = Some "A") by reflexivity.
  assert (H5 : "A" <> "zulu") by discriminate.
  split; [repeat split; assumption|]. split.
  - exact (proj1 (set_frame (run Samples.full_ops) 99 "zulu" VNull "B" H1) (or_intror H2)).
  - exact (proj2 (set_frame (run Samples.full_ops) 99 "zulu" VNull "A" H5) H3 H4).
Defined.

Lemma gets_keep_items (ops : list op) c k it :
  forallb History.is_get ops = true ->
  JsMap.get k (fold_left step ops c) = Some it -> JsMap.get k c = Some it.
Proof.
  revert c. induction ops as [|o ops IH]; simpl; intros c Hgets Hget; [assumption|].
  apply andb_prop in Hgets. destruct Hgets as [Ho Hgets].
  specialize (IH _ Hgets Hget).
  destruct o as [now k' | now k' d |]; try discriminate.
  simpl in IH. now apply get_after_get_Some in IH.
Qed.

(** X2. Lookups never refresh an entry: after [set(k, v)] at time [t0]
    and any number of [get]s, of any keys at any times, the entry of [k]
    is either gone or still the one written at [t0]; so a [get(k)] later
    than [t0 + CACHE_DURATION] returns [null], however often the entry
    was read in between. *)
Theorem gets_do_not_extend_lifetime (ops : list op) c k v (t0 t : Z) :
  forallb History.is_get ops = true ->
  (forall it, JsMap.get k (fold_left step ops (set t0 k v c)) = Some it ->
              it = mkItem v t0)
  /\ (t - t0 > 3600000 ->
      fst (get t k (fold_left step ops (set t0 k v c))) = VNull).
Proof.
  intros Hgets.
  assert (Hsame : forall it,
             JsMap.get k (fold_left step ops (set t0 k v c)) = Some it ->
             it = mkItem v t0).
  { intros it Hget. apply (gets_keep_items ops _ k it Hgets) in Hget.
    rewrite CacheFacts.get_set_item in Hget. congruence. }
  split; [exact Hsame|].
  intros Hlate.
  destruct (JsMap.get k (fold_left step ops (set t0 k v c))) as [it|] eqn:Hget.
  - rewrite (CacheFacts.get_expired t k _ it Hget); [reflexivity|].
    rewrite (Hsame it eq_refl). simpl. unfold CONFIG.CACHE_DURATION. lia.
  - now rewrite CacheFacts.get_absent.
Qed.

Lemma gets_do_not_extend_lifetime_witness :
  (forallb History.is_get [OpGet 3599999 "hello"; OpGet 3600000 "hello"] = true
   /\ 3600001 - 0 > 3600000)
  /\ fst (get 3600001 "hello"
            (fold_left step [OpGet 3599999 "hello"; OpGet 3600000 "hello"]
                       (set 0 "hello" Samples.hello_entry (JsMap.empty item))))
     = VNull.
Proof.
  assert (H1 : forallb History.is_get [OpGet 3599999 "hello"; OpGet 3600000 "hello"]
               = true) by reflexivity.
  assert (H2 : 3600001 - 0 > 3600000) by lia.
  split; [split; assumption|].
  exact (proj2 (gets_do_not_extend_lifetime
                  [OpGet 3599999 "hello"; OpGet 3600000 "hello"]
                  (JsMap.empty item) "hello" Samples.hello_entry 0 3600001 H1) H2).
Defined.

Lemma last_set_snoc k ops o :
  History.last_set k (ops ++ [o])
  = match o with
    | OpSet now k' d =>
        if String.eqb k' k then Some (mkItem d now) else History.last_set k ops
    | _ => History.last_set k ops
    end.
Proof. unfold History.last_set. rewrite fold_left_app. reflexivity. Qed.

(** X3. Overwrite semantics: whatever the sequence of [get], [set] and
    [clear] calls, an entry that is present for [k] holds the data and
    the timestamp of the most recent [set(k, ...)]; the cache never
    holds an older value of a key, nor a value that was never set. *)
Theorem present_entry_is_last_set (ops : list op) k it :
  JsMap.get k (run ops) = Some it -> History.last_set k ops = Some it.
Proof.
  revert it. induction ops as [|o ops IH] using rev_ind; intros it.
  - discriminate.
  - rewrite CacheFacts.run_snoc, last_set_snoc.
    destruct o as [now k' | now k' d |]; simpl.
    + intros H. apply IH. now apply get_after_get_Some in H.
    + destruct (String.eqb_spec k' k) as [->|Hne].
      * rewrite CacheFacts.get_set_item. auto.
      * unfold set. rewrite JsMapFacts.get_set_other by assumption.
        intros H. apply IH. now apply get_limit_Some.
    + discriminate.
Qed.

Lemma present_entry_is_last_set_witness :
  JsMap.get "alpha" (run (firstn 10 Samples.reset_ops)) = Some (mkItem (VBool true) 2)
  /\ History.last_set "alpha" (firstn 10 Samples.reset_ops)
     = Some (mkItem (VBool true) 2).
Proof.
  assert (H : JsMap.get "alpha" (run (firstn 10 Samples.reset_ops))
              = Some (mkItem (VBool true) 2)) by reflexivity.
  split; [exact H|].
  exact (present_entry_is_last_set (firstn 10 Samples.reset_ops) "alpha" _ H).
Defined.

End CacheMoreFacts.


(** ** More on [fetchWord] *)

Module APIMoreFacts.
Import APIService.
Implicit Types (w : world) (word : string) (net : network).


Lemma get_truthy t word (c : CacheManager.cache) :
  ToBoolean (fst (CacheManager.get t word c)) = true ->
  exists it,
    JsMap.get word c = Some it
    /\ t - CacheManager.timestamp it <= 3600000
    /\ CacheManager.get t word c = (CacheManager.data it, c).
Proof.
  unfold CacheManager.get.
  destruct (JsMap.get word c) as [it|]; [|discriminate].
  unfold CONFIG.CACHE_DURATION. rewrite Z.gtb_ltb.
  destruct (Z.ltb_spec 3600000 (t - CacheManager.timestamp it)); [discriminate|].
  intros _. exists it. repeat split. lia.
Qed.



(** X5. [fetchWord] fulfils only with a payload that was cached or has
    just been fetched: either the cache held a valid entry for the word
    with that truthy payload and nothing changed, or the upstream
    answered this call with a success status and that payload, which is
    now stored under the word with the current timestamp. It never
    fulfils with the body of a failed response. *)
Theorem fulfilment_is_cached_or_fetched w word net (t t' : Z) (d : value) :
  fst (fetchWord t t' net word w) = Fulfilled d ->
  (exists it,
     JsMap.get word (cache w) = Some it
     /\ CacheManager.data it = d
     /\ t - CacheManager.timestamp it <= 3600000
     /\ ToBoolean d = true
     /\ snd (fetchWord t t' net word w) = w)
  \/ (exists resp,
        net (request_url word) = Fulfilled resp
        /\ ok resp = true
        /\ json resp = Fulfilled d
        /\ JsMap.get word (cache (snd (fetchWord t t' net word w)))
           = Some (CacheManager.mkItem d t')
        /\ requests (snd (fetchWord t t' net word w))
           = requests w ++ [request_url word]).
Proof.
  destruct (ToBoolean (fst (CacheManager.get t word (cache w)))) eqn:Hb.
  - destruct (get_truthy t word (cache w) Hb) as (it & Hget & Hfresh & Hres).
    rewrite Hres in Hb. cbn [fst] in Hb.
    rewrite (APIFacts.fetchWord_hit t t' net word w it Hget Hfresh Hb).
    cbn [fst snd]. intros [= <-]. left. exists it. repeat split; assumption.
  - rewrite (APIFacts.fetchWord_miss t t' net word w Hb).
    unfold fetch_and_store.
    destruct (net (request_url word)) as [resp | e0]; [|discriminate].
    destruct (ok resp) eqn:Hok; cbn [negb].
    + destruct (json resp) as [d0 | e0] eqn:Hjson; [|discriminate].
      cbn [fst snd cache requests]. intros [= <-]. right. exists resp.
      repeat split; try assumption. apply CacheFacts.get_set_item.
    + destruct (status resp =? 404); discriminate.
Qed.

Lemma fulfilment_is_cached_or_fetched_witness :
  fst (fetchWord 5 6 (Samples.net_ok Samples.hello_entry) "hello" Samples.fresh_world)
  = Fulfilled Samples.hello_entry
  /\ JsMap.get "hello"
       (cache (snd (fetchWord 5 6 (Samples.net_ok Samples.hello_entry) "hello"
                              Samples.fresh_world)))
     = Some (CacheManager.mkItem Samples.hello_entry 6).
Proof.
  assert (H : fst (fetchWord 5 6 (Samples.net_ok Samples.hello_entry) "hello"
                             Samples.fresh_world)
              = Fulfilled Samples.hello_entry) by reflexivity.
  split; [exact H|].
  destruct (fulfilment_is_cached_or_fetched Samples.fresh_world "hello"
              (Samples.net_ok Samples.hello_entry) 5 6 _ H)
    as [(it & Hget & _) | (resp & _ & _ & _ & Hstored & _)].
  - discriminate Hget.
  - exact Hstored.
Defined.





Lemma hex_digit_inj (n m : nat) :
  (n < 16)%nat -> (m < 16)%nat -> hex_digit n = hex_digit m -> n = m.
Proof.
  intros Hn Hm.
  do 16 (destruct n as [|n]; [do 16 (destruct m as [|m];
            [reflexivity || discriminate|]); lia|]).
  lia.
Qed.

Lemma percent_encode_inj (c1 c2 : ascii) (r1 r2 : string) :
  (percent_encode c1 ++ r1)%string = (percent_encode c2 ++ r2)%string ->
  c1 = c2 /\ r1 = r2.
Proof.
  pose proof (nat_ascii_bounded c1) as B1. pose proof (nat_ascii_bounded c2) as B2.
  pose proof (Nat.div_mod_eq (nat_of_ascii c1) 16) as D1.
  pose proof (Nat.div_mod_eq (nat_of_ascii c2) 16) as D2.
  pose proof (Nat.mod_upper_bound (nat_of_ascii c1) 16) as M1.
  pose proof (Nat.mod_upper_bound (nat_of_ascii c2) 16) as M2.
  unfold percent_encode.
  remember (nat_of_ascii c1 / 16)%nat as h1 eqn:Eh1.
  remember (nat_of_ascii c1 mod 16)%nat as l1 eqn:El1.
  remember (nat_of_ascii c2 / 16)%nat as h2 eqn:Eh2.
  remember (nat_of_ascii c2 mod 16)%nat as l2 eqn:El2.
  cbn [String.append]. intros [= Hhi Hlo Hr].
  apply hex_digit_inj in Hhi; [|lia|lia].
  apply hex_digit_inj in Hlo; [|lia|lia].
  split; [|assumption].
  rewrite <- (ascii_nat_embedding c1), <- (ascii_nat_embedding c2). f_equal. lia.
Qed.

Lemma percent_not_unreserved : unreserved "%"%char = false.
Proof. reflexivity. Qed.

Lemma encodeURIComponent_inj (s1 s2 : string) :
  encodeURIComponent s1 = encodeURIComponent s2 -> s1 = s2.
Proof.
  revert s2. induction s1 as [|c1 s1 IH]; intros [|c2 s2]; simpl.
  - reflexivity.
  - destruct (unreserved c2); discriminate.
  - destruct (unreserved c1); discriminate.
  - destruct (unreserved c1) eqn:U1, (unreserved c2) eqn:U2.
    + intros [= -> H]. f_equal. now apply IH.
    + unfold percent_encode. cbn [String.append]. intros [= -> _].
      rewrite percent_not_unreserved in U1. discriminate.
    + unfold percent_encode. cbn [String.append]. intros [= <- _].
      rewrite percent_not_unreserved in U2. discriminate.
    + intros H. apply percent_encode_inj in H. destruct H as [-> H].
      f_equal. now apply IH.
Qed.

Lemma append_cancel_l (p a b : string) : (p ++ a)%string = (p ++ b)%string -> a = b.
Proof. induction p as [|c p IH]; simpl; [auto | intros [= H]; auto]. Qed.

(** X7. Distinct words are requested at distinct URLs: the URL built by
    [fetchWord] from the endpoint and [encodeURIComponent(word)]
    determines the word, so two words never share an upstream request,
    nor an entry of the worker's runtime store. *)
Theorem request_url_injective (word1 word2 : string) :
  request_url word1 = request_url word2 -> word1 = word2.
Proof.
  unfold request_url. intros H.
  apply append_cancel_l in H. now apply encodeURIComponent_inj.
Qed.

Lemma request_url_injective_witness :
  request_url "a b" = request_url "a b" /\ "a b" = "a b"
  /\ request_url "a b" <> request_url "a%20b".
Proof.
  split; [reflexivity|]. split.
  - exact (request_url_injective "a b" "a b" eq_refl).
  - intros H. apply request_url_injective in H. discriminate H.
Defined.

End APIMoreFacts.


(** ** More on the service worker *)

Module WorkerMoreFacts.
Import ServiceWorker WorkerSpec.

(** *** Lookups in the storage *)

Lemma caches_match_None url (st : CacheStorage) :
  caches_match url st = None ->
  forall name c, In (name, c) st -> JsMap.get url c = None.
Proof.
  induction st as [|[n c] st IH]; simpl; intros H name c' Hin; [contradiction|].
  destruct (JsMap.get url c) as [r|] eqn:Hget; [discriminate|].
  destruct Hin as [[= <- <-] | Hin]; [assumption | now apply (IH H name)].
Qed.

Lemma caches_match_open url name (st : CacheStorage) :
  caches_match url (caches_open name st) = caches_match url st.
Proof.
  unfold caches_open. destruct (JsMap.get name st); [reflexivity|].
  induction st as [|[n c] st IH]; simpl; [reflexivity|].
  destruct (JsMap.get url c); [reflexivity | apply IH].
Qed.

Lemma get_open name (st : CacheStorage) :
  exists c, JsMap.get name (caches_open name st) = Some c.
Proof.
  unfold caches_open. destruct (JsMap.get name st) as [c|] eqn:Hget.
  - now exists c.
  - exists (JsMap.empty Response).
    pose proof (JsMapFacts.get_set_same st name (JsMap.empty Response)) as H.
    now rewrite (JsMapFacts.set_fresh st name (JsMap.empty Response) Hget) in H.
Qed.

Lemma get_open_other name name' (st : CacheStorage) :
  name <> name' -> JsMap.get name' (caches_open name st) = JsMap.get name' st.
Proof.
  intros Hne. unfold caches_open. destruct (JsMap.get name st) as [c|] eqn:Hget;
    [reflexivity|].
  pose proof (JsMapFacts.get_set_other st name name' (JsMap.empty Response) Hne) as H.
  now rewrite (JsMapFacts.set_fresh st name (JsMap.empty Response) Hget) in H.
Qed.

Lemma caches_match_put url name r c0 (st : CacheStorage) :
  (forall n c, In (n, c) st -> JsMap.get url c = None) ->
  JsMap.get name st = Some c0 ->
  caches_match url (JsMap.set name (JsMap.set url r c0) st) = Some r.
Proof.
  induction st as [|[n c] st IH]; simpl; intros Hnone Hget; [discriminate|].
  destruct (String.eqb_spec n name) as [->|Hne]; simpl.
  - now rewrite JsMapFacts.get_set_same.
  - rewrite (Hnone n c) by now left.
    apply IH; [|assumption]. intros n' c' Hin. apply (Hnone n'). now right.
Qed.


(** X8. Cache-first round trip: a request that misses the store and is
    answered by the network with status 200 is returned and stored
    (when the store accepts the write); every later call for the same
    request is then answered from the store with that response,
    whatever the network does, also when it is down, and leaves the
    storage as it is. *)
Theorem cacheFirst_round_trip (resolve : string -> string) (e : env)
    (request : string) (st : CacheStorage) (nr : Response) :
  caches_match request st = None ->
  fetch e request = Fulfilled nr ->
  status nr = 200 ->
  put_ok e = true ->
  fst (cacheFirstStrategy resolve e request st) = Fulfilled (Some nr)
  /\ forall e',
       cacheFirstStrategy resolve e' request
                          (snd (cacheFirstStrategy resolve e request st))
       = (Fulfilled (Some nr), snd (cacheFirstStrategy resolve e request st)).
Proof.
  intros Hmiss Hnet H200 Hput.
  assert (Hrun : cacheFirstStrategy resolve e request st
                 = (Fulfilled (Some nr),
                    cache_put CACHE_NAME request nr (caches_open CACHE_NAME st))).
  { unfold cacheFirstStrategy, catch, and_then, reading, put_unawaited, effect, resolved.
    rewrite Hmiss, Hnet, H200. simpl. now rewrite Hput. }
  rewrite Hrun. cbn [fst snd]. split; [reflexivity|]. intros e'.
  assert (Hhit : caches_match request
                   (cache_put CACHE_NAME request nr (caches_open CACHE_NAME st))
                 = Some nr).
  { unfold cache_put. destruct (get_open CACHE_NAME st) as [c0 Hc0]. rewrite Hc0.
    apply caches_match_put; [|assumption].
    apply caches_match_None. now rewrite caches_match_open. }
  unfold cacheFirstStrategy, catch, and_then, reading, resolved. now rewrite Hhit.
Qed.

Lemma cacheFirst_round_trip_witness :
  (caches_match Samples.style_url (JsMap.empty Cache) = None
   /\ fetch Samples.env_online Samples.style_url
      = Fulfilled (Samples.page Samples.style_url)
   /\ status (Samples.page Samples.style_url) = 200
   /\ put_ok Samples.env_online = true)
  /\ cacheFirstStrategy Samples.sample_resolve Samples.env_offline Samples.style_url
       (snd (cacheFirstStrategy Samples.sample_resolve Samples.env_online
               Samples.style_url (JsMap.empty Cache)))
     = (Fulfilled (Some (Samples.page Samples.style_url)),
        snd (cacheFirstStrategy Samples.sample_resolve Samples.env_online
               Samples.style_url (JsMap.empty Cache))).
Proof.
  assert (H1 : caches_match Samples.style_url (JsMap.empty Cache) = None) by reflexivity.
  assert (H2 : fetch Samples.env_online Samples.style_url
               = Fulfilled (Samples.page Samples.style_url)) by reflexivity.
  assert (H3 : status (Samples.page Samples.style_url) = 200) by reflexivity.
  assert (H4 : put_ok Samples.env_online = true) by reflexivity.
  split; [repeat split; assumption|].
  exact (proj2 (cacheFirst_round_trip Samples.sample_resolve Samples.env_online
                  Samples.style_url (JsMap.empty Cache) _ H1 H2 H3 H4)
               Samples.env_offline).
Defined.




(** Deleting, in turn, the caches of a list of names that pass a test. *)
Lemma get_after_deletes (keep : string -> bool) (names : list string)
    (st : CacheStorage) (name : string) :
  JsMap.get name
    (fold_left (fun s n => if keep n then caches_delete n s else s) names st)
  = if keep name && existsb (String.eqb name) names then None
    else JsMap.get name st.
Proof.
  revert st. induction names as [|n names IH]; intros st; simpl.
  - now rewrite andb_false_r.
  - rewrite IH. destruct (keep name && existsb (String.eqb name) names) eqn:E.
    + apply andb_prop in E. destruct E as [-> ->]. now rewrite orb_true_r.
    + destruct (String.eqb_spec name n) as [->|Hne]; simpl.
      * destruct (keep n) eqn:K; simpl; [apply JsMapFacts.get_delete_same|].
        reflexivity.
      * rewrite E. destruct (keep n); [|reflexivity].
        apply JsMapFacts.get_delete_other. congruence.
Qed.

Lemma existsb_keys (V : Type) (m : JsMap.t V) (name : string) :
  existsb (String.eqb name) (JsMap.keys m) = false -> JsMap.get name m = None.
Proof.
  intros H. apply JsMapFacts.get_None_iff. intros Hin.
  assert (Hex : existsb (String.eqb name) (JsMap.keys m) = true).
  { apply existsb_exists. exists name. split; [assumption | apply String.eqb_refl]. }
  congruence.
Qed.

Lemma get_after_activate (st : CacheStorage) (name : string) :
  JsMap.get name (snd (activate st))
  = if stale name then None else JsMap.get name st.
Proof.
  unfold activate, and_then, reading, effect, resolved. cbn [snd].
  rewrite get_after_deletes.
  destruct (stale name); [|reflexivity]. simpl.
  destruct (existsb (String.eqb name) (caches_keys st)) eqn:E; [reflexivity|].
  now apply existsb_keys.
Qed.

Lemma stale_false (name : string) :
  stale name = false -> name = CACHE_NAME \/ name = RUNTIME_CACHE.
Proof.
  unfold stale.
  destruct (String.eqb_spec name CACHE_NAME) as [->|]; [now left|].
  destruct (String.eqb_spec name RUNTIME_CACHE) as [->|]; [now right | discriminate].
Qed.

(** X10. Activation deletes every cache whose name is neither the
    current static name nor the runtime name, whatever older versions
    left behind, and leaves those two caches untouched: afterwards only
    the worker's own two names can remain, and every lookup in the
    static store and in the runtime store answers as before. *)
Theorem activate_keeps_current_caches (st : CacheStorage) :
  fst (activate st) = Fulfilled tt
  /\ (forall name,
        JsMap.get name (snd (activate st))
        = if stale name then None else JsMap.get name st)
  /\ own_names (snd (activate st))
  /\ (forall url,
        static_lookup url (snd (activate st)) = static_lookup url st
        /\ runtime_lookup url (snd (activate st)) = runtime_lookup url st).
Proof.
  split; [reflexivity|]. split; [apply get_after_activate|]. split.
  - intros name Hin. apply stale_false.
    destruct (stale name) eqn:E; [|reflexivity]. exfalso.
    pose proof (get_after_activate st name) as H. rewrite E in H.
    apply JsMapFacts.get_None_iff in H. contradiction.
  - intros url. unfold static_lookup, runtime_lookup.
    now rewrite !get_after_activate.
Qed.

(** X11. A [CLEAR_CACHE] message deletes every cache, the current ones
    included, so that the next request to the API that finds the network
    down is answered with the 503 response; any other message leaves the
    storage as it is. *)
Theorem clear_cache_empties_storage (st : CacheStorage) (type : string)
    (e : env) (request : string) (err : error) :
  snd (on_message "CLEAR_CACHE" st) = JsMap.empty Cache
  /\ (fetch e request = Rejected err ->
      fst (networkFirstStrategy e request (snd (on_message "CLEAR_CACHE" st)))
      = Fulfilled offline_response)
  /\ (type <> "CLEAR_CACHE" -> on_message type st = (Fulfilled tt, st)).
Proof.
  assert (Hempty : snd (on_message "CLEAR_CACHE" st) = JsMap.empty Cache).
  { unfold on_message, and_then, reading, effect. cbn [String.eqb Ascii.eqb Bool.eqb snd].
    set (st' := fold_left _ _ _).
    assert (Hnone : forall name, JsMap.get name st' = None).
    { intros name. unfold st'.
      rewrite (get_after_deletes (fun _ => true) (caches_keys st) st name). simpl.
      destruct (existsb (String.eqb name) (caches_keys st)) eqn:E; [reflexivity|].
      now apply existsb_keys. }
    destruct st' as [|[n c] rest]; [reflexivity|].
    specialize (Hnone n). simpl in Hnone. rewrite String.eqb_refl in Hnone.
    discriminate. }
  split; [exact Hempty|]. split.
  - intros Hdown. rewrite Hempty.
    unfold networkFirstStrategy, catch, and_then, reading, resolved.
    now rewrite Hdown.
  - intros Hne. unfold on_message. apply String.eqb_neq in Hne. now rewrite Hne.
Qed.

Lemma clear_cache_empties_storage_witness :
  let st := run Samples.sample_origin Samples.sample_resolve Samples.sample_events in
  (fetch Samples.env_offline Samples.hello_url
   = Rejected (mkError "TypeError" "Failed to fetch")
   /\ "SKIP_WAITING" <> "CLEAR_CACHE")
  /\ runtime_lookup Samples.hello_url st = Some (Samples.page Samples.hello_url)
  /\ fst (networkFirstStrategy Samples.env_offline Samples.hello_url
            (snd (on_message "CLEAR_CACHE" st)))
     = Fulfilled offline_response
  /\ on_message "SKIP_WAITING" st = (Fulfilled tt, st).
Proof.
  intros st.
  assert (H1 : fetch Samples.env_offline Samples.hello_url
               = Rejected (mkError "TypeError" "Failed to fetch")) by reflexivity.
  assert (H2 : "SKIP_WAITING" <> "CLEAR_CACHE") by discriminate.
  split; [split; assumption|]. split; [reflexivity|].
  destruct (clear_cache_empties_storage st "SKIP_WAITING" Samples.env_offline
              Samples.hello_url (mkError "TypeError" "Failed to fetch"))
    as (_ & Hoff & Hother).
  split; [exact (Hoff H1) | exact (Hother H2)].
Defined.

(** *** Invariants of the reachable states *)

Section InvariantRule.
Context (origin resolve : string -> string) (P : CacheStorage -> Prop).

Hypothesis P_open :
  forall name st, name = CACHE_NAME \/ name = RUNTIME_CACHE ->
                  P st -> P (caches_open name st).
Hypothesis P_delete : forall name st, P st -> P (caches_delete name st).
Hypothesis P_put :
  forall name url r st,
    name = CACHE_NAME \/ name = RUNTIME_CACHE ->
    admissible origin name url r -> P st -> P (cache_put name url r st).

Lemma preserves_resolved (A : Type) (a : A) : preserves P (resolved a).
Proof. intros st H. exact H. Qed.

Lemma preserves_reading (A : Type) (f : CacheStorage -> A) : preserves P (reading f).
Proof. intros st H. exact H. Qed.

Lemma preserves_effect f : (forall st, P st -> P (f st)) -> preserves P (effect f).
Proof. intros Hf st H. now apply Hf. Qed.

Lemma preserves_and_then (A B : Type) (p : promise A) (k : A -> promise B) :
  preserves P p -> (forall a, preserves P (k a)) -> preserves P (and_then p k).
Proof.
  intros Hp Hk st H. unfold and_then. specialize (Hp st H).
  destruct (p st) as [[a|e] st']; simpl in *; [now apply Hk | assumption].
Qed.

Lemma preserves_catch (A : Type) (p : promise A) (h : error -> promise A) :
  preserves P p -> (forall e, preserves P (h e)) -> preserves P (catch p h).
Proof.
  intros Hp Hh st H. unfold catch. specialize (Hp st H).
  destruct (p st) as [[a|e] st']; simpl in *; [assumption | now apply Hh].
Qed.

Lemma preserves_network (e : env) (request : string) :
  preserves P (fun st : CacheStorage => (fetch e request, st)).
Proof. intros st H. exact H. Qed.

Lemma preserves_deletes (keep : string -> bool) names st :
  P st -> P (fold_left (fun s n => if keep n then caches_delete n s else s) names st).
Proof.
  revert st. induction names as [|n names IH]; simpl; intros st Hst; [assumption|].
  apply IH. destruct (keep n); [now apply P_delete | assumption].
Qed.

Lemma preserves_store e name request nr :
  name = CACHE_NAME \/ name = RUNTIME_CACHE ->
  (status nr = 200 -> admissible origin name request nr) ->
  preserves P
    (and_then (if status nr =? 200
               then and_then (effect (caches_open name))
                             (fun _ => put_unawaited e name request nr)
               else resolved tt)
              (fun _ => resolved (Some nr))).
Proof.
  intros Hname Hadm. apply preserves_and_then; [|intros _; apply preserves_resolved].
  destruct (Z.eqb_spec (status nr) 200) as [H200|]; [|apply preserves_resolved].
  apply preserves_and_then.
  - apply preserves_effect. intros st. now apply P_open.
  - intros _. apply preserves_effect. intros st Hst.
    destruct (put_ok e); [|assumption]. apply P_put; auto.
Qed.

Lemma fetch_all_ok e urls rs :
  fetch_all e urls = Fulfilled rs ->
  Forall (fun ur => response_ok (snd ur) = true) rs.
Proof.
  revert rs. induction urls as [|u urls IH]; simpl; intros rs.
  - intros [= <-]. constructor.
  - destruct (fetch e u) as [r|err]; [|discriminate].
    destruct (response_ok r) eqn:Hok; [|discriminate].
    destruct (fetch_all e urls) as [rs'|err]; [|discriminate].
    intros [= <-]. constructor; [assumption | now apply IH].
Qed.

Lemma preserves_put_all rs st :
  Forall (fun ur => response_ok (snd ur) = true) rs ->
  P st -> P (put_all CACHE_NAME rs st).
Proof.
  unfold put_all. revert st. induction rs as [|[u r] rs IH]; simpl; intros st Hok Hst;
    [assumption|].
  inversion Hok as [|? ? Hr Hrs]; subst. apply IH; [assumption|].
  apply P_put; [now left | | assumption].
  split; [assumption | discriminate].
Qed.

Lemma preserves_install e : preserves P (install resolve e).
Proof.
  unfold install. apply preserves_catch; [|intros err; apply preserves_resolved].
  apply preserves_and_then.
  - apply preserves_effect. intros st'. apply P_open. now left.
  - intros _. apply preserves_and_then; [|intros _; apply preserves_resolved].
    intros st' Hst'. unfold cache_addAll.
    destruct (fetch_all e (map resolve STATIC_ASSETS)) as [rs|err] eqn:Hf;
      [|assumption].
    destruct (put_ok e); [|assumption]. simpl.
    apply preserves_put_all; [exact (fetch_all_ok e _ rs Hf) | assumption].
Qed.

Lemma preserves_activate : preserves P activate.
Proof.
  unfold activate. apply preserves_and_then; [apply preserves_reading|].
  intros names. apply preserves_and_then; [|intros _; apply preserves_resolved].
  apply preserves_effect. intros st'. apply preserves_deletes.
Qed.

Lemma preserves_networkFirst e request :
  origin request = API_ORIGIN -> preserves P (networkFirstStrategy e request).
Proof.
  intros Hapi. unfold networkFirstStrategy. apply preserves_catch.
  - apply preserves_and_then; [apply preserves_network|].
    intros nr. apply preserves_and_then; [|intros _; apply preserves_resolved].
    destruct (Z.eqb_spec (status nr) 200) as [H200|]; [|apply preserves_resolved].
    apply preserves_and_then.
    + apply preserves_effect. intros st'. apply P_open. now right.
    + intros _. apply preserves_effect. intros st' Hst'.
      destruct (put_ok e); [|assumption]. apply P_put; [now right | | assumption].
      split; [|auto]. unfold response_ok. rewrite H200. reflexivity.
  - intros err. apply preserves_and_then; [apply preserves_reading|].
    intros [r|]; apply preserves_resolved.
Qed.

Lemma preserves_cacheFirst e request : preserves P (cacheFirstStrategy resolve e request).
Proof.
  unfold cacheFirstStrategy. apply preserves_catch;
    [|intros err; apply preserves_reading].
  apply preserves_and_then; [apply preserves_reading|].
  intros [r|]; [apply preserves_resolved|].
  apply preserves_and_then; [apply preserves_network|].
  intros nr. apply preserves_store; [now left|].
  intros H200. split; [|discriminate].
  unfold response_ok. rewrite H200. reflexivity.
Qed.

Lemma preserves_on_fetch e request : preserves P (on_fetch origin resolve e request).
Proof.
  unfold on_fetch.
  destruct (String.eqb_spec (origin request) API_ORIGIN) as [Hapi | Hstatic].
  - apply preserves_and_then; [now apply preserves_networkFirst|].
    intros r. apply preserves_resolved.
  - apply preserves_cacheFirst.
Qed.

Lemma preserves_on_message type : preserves P (on_message type).
Proof.
  unfold on_message. destruct (String.eqb type "CLEAR_CACHE");
    [|apply preserves_resolved].
  apply preserves_and_then; [apply preserves_reading|].
  intros names. apply preserves_effect. intros st'.
  apply (preserves_deletes (fun _ => true)).
Qed.

Lemma preserves_handle st ev : P st -> P (handle origin resolve st ev).
Proof.
  destruct ev as [e | | e request | type]; simpl.
  - apply preserves_install.
  - apply preserves_activate.
  - apply preserves_on_fetch.
  - apply preserves_on_message.
Qed.

Lemma invariant_of_run events : P (JsMap.empty Cache) -> P (run origin resolve events).
Proof.
  unfold run. generalize (JsMap.empty Cache).
  induction events as [|ev events IH]; simpl; intros st Hst; [assumption|].
  apply IH. now apply preserves_handle.
Qed.

End InvariantRule.

Lemma keys_open name (st : CacheStorage) n :
  In n (caches_keys (caches_open name st)) -> n = name \/ In n (caches_keys st).
Proof.
  unfold caches_open, caches_keys. destruct (JsMap.get name st); [auto|].
  unfold JsMap.keys. rewrite map_app. intros Hin. apply in_app_or in Hin.
  destruct Hin as [Hin | [<- | []]]; auto.
Qed.

Lemma in_open name (st : CacheStorage) n c :
  In (n, c) (caches_open name st) -> In (n, c) st \/ c = JsMap.empty Response.
Proof.
  unfold caches_open. destruct (JsMap.get name st); [auto|].
  intros Hin. apply in_app_or in Hin. destruct Hin as [Hin | [[= <- <-] | []]]; auto.
Qed.

Lemma keys_put name url r (st : CacheStorage) :
  caches_keys (cache_put name url r st) = caches_keys st.
Proof.
  unfold cache_put, caches_keys. destruct (JsMap.get name st) as [c|] eqn:Hget;
    [|reflexivity].
  now apply JsMapFacts.keys_set_present with (v0 := c).
Qed.

Lemma own_and_admissible_open origin name st :
  name = CACHE_NAME \/ name = RUNTIME_CACHE ->
  own_names st /\ stores_admissible origin st ->
  own_names (caches_open name st) /\ stores_admissible origin (caches_open name st).
Proof.
  intros Hname [Hown Hadm]. split.
  - intros n Hin. apply keys_open in Hin. destruct Hin as [-> | Hin]; auto.
  - intros n c url r Hin Hget. apply in_open in Hin.
    destruct Hin as [Hin | ->]; [now apply (Hadm n c) | discriminate].
Qed.

Lemma own_and_admissible_delete origin name st :
  own_names st /\ stores_admissible origin st ->
  own_names (caches_delete name st) /\ stores_admissible origin (caches_delete name st).
Proof.
  intros [Hown Hadm]. split.
  - intros n Hin. apply Hown. unfold caches_keys, caches_delete in *.
    rewrite JsMapFacts.keys_delete in Hin. now apply filter_In in Hin.
  - intros n c url r Hin. apply WorkerFacts.in_delete in Hin. now apply Hadm.
Qed.

Lemma own_and_admissible_put origin name url r st :
  admissible origin name url r ->
  own_names st /\ stores_admissible origin st ->
  own_names (cache_put name url r st)
  /\ stores_admissible origin (cache_put name url r st).
Proof.
  intros Hr [Hown Hadm]. split.
  - intros n. rewrite keys_put. apply Hown.
  - unfold cache_put. destruct (JsMap.get name st) as [c0|] eqn:Hget; [|assumption].
    intros n c u r' Hin Hu. apply WorkerFacts.in_set_cases in Hin.
    destruct Hin as [[-> ->] | Hin]; [|now apply (Hadm n c)].
    destruct (String.eqb_spec url u) as [<-|Hne].
    + rewrite JsMapFacts.get_set_same in Hu. injection Hu as <-. assumption.
    + rewrite JsMapFacts.get_set_other in Hu by assumption.
      apply (Hadm name c0); [now apply WorkerFacts.get_Some_In | assumption].
Qed.

Lemma reachable_own_and_admissible (origin resolve : string -> string)
    (events : list event) :
  own_names (run origin resolve events)
  /\ stores_admissible origin (run origin resolve events).
Proof.
  apply (invariant_of_run origin resolve
           (fun st => own_names st /\ stores_admissible origin st)).
  - intros n st Hn. now apply own_and_admissible_open.
  - intros n st. apply own_and_admissible_delete.
  - intros n u r0 st _. apply own_and_admissible_put.
  - split; [intros n [] | intros n c0 u r0 []].
Qed.

(** X12. In every state the worker can reach, the storage holds no cache
    but the worker's own two, and every stored response has a success
    status: the worker never caches an error response. What the runtime
    store holds is, moreover, a response with status 200 to a request to
    the API. *)
Theorem storage_holds_only_successes (origin resolve : string -> string)
    (events : list event) (name : string) (c : Cache) (url : string) (r : Response) :
  JsMap.get name (run origin resolve events) = Some c ->
  JsMap.get url c = Some r ->
  (name = CACHE_NAME \/ name = RUNTIME_CACHE)
  /\ response_ok r = true
  /\ (name = RUNTIME_CACHE -> status r = 200 /\ origin url = API_ORIGIN).
Proof.
  intros Hname Hurl.
  destruct (reachable_own_and_admissible origin resolve events) as [Hown Hadm]. split.
  - apply Hown. now apply (JsMapFacts.get_Some_in _ _ c).
  - apply (Hadm name c url r); [now apply WorkerFacts.get_Some_In | assumption].
Qed.

Lemma storage_holds_only_successes_witness :
  let st := run Samples.sample_origin Samples.sample_resolve Samples.sample_events in
  (JsMap.get RUNTIME_CACHE st = Some [(Samples.hello_url, Samples.page Samples.hello_url)]
   /\ JsMap.get Samples.hello_url [(Samples.hello_url, Samples.page Samples.hello_url)]
      = Some (Samples.page Samples.hello_url))
  /\ response_ok (Samples.page Samples.hello_url) = true
  /\ Samples.sample_origin Samples.hello_url = API_ORIGIN.
Proof.
  intros st.
  assert (H1 : JsMap.get RUNTIME_CACHE st
               = Some [(Samples.hello_url, Samples.page Samples.hello_url)])
    by reflexivity.
  assert (H2 : JsMap.get Samples.hello_url
                 [(Samples.hello_url, Samples.page Samples.hello_url)]
               = Some (Samples.page Samples.hello_url)) by reflexivity.
  split; [split; assumption|].
  destruct (storage_holds_only_successes Samples.sample_origin Samples.sample_resolve
              Samples.sample_events RUNTIME_CACHE _ Samples.hello_url _ H1 H2)
    as (_ & Hok & Hrt).
  split; [exact Hok | exact (proj2 (Hrt eq_refl))].
Defined.

(** X13. Network-first keeps the last successful answer: in every state
    the worker can reach, a request to the API that the network answers
    with status 200 is returned and stored in the runtime store (when
    the store accepts the write), replacing what was stored for it
    before; from then on, when [fetch] throws, that response is the one
    served. *)
Theorem networkFirst_replays_last_success (origin resolve : string -> string)
    (events : list event) (e : env) (request : string) (nr : Response) :
  Forall (fun a => origin (resolve a) <> API_ORIGIN) STATIC_ASSETS ->
  origin request = API_ORIGIN ->
  fetch e request = Fulfilled nr ->
  status nr = 200 ->
  put_ok e = true ->
  fst (networkFirstStrategy e request (run origin resolve events)) = Fulfilled nr
  /\ runtime_lookup request
       (snd (networkFirstStrategy e request (run origin resolve events)))
     = Some nr
  /\ forall e' err,
       fetch e' request = Rejected err ->
       networkFirstStrategy e' request
         (snd (networkFirstStrategy e request (run origin resolve events)))
       = (Fulfilled nr,
          snd (networkFirstStrategy e request (run origin resolve events))).
Proof.
  intros Hassets Hapi Hnet H200 Hput.
  set (st := run origin resolve events).
  assert (Hsep : separated origin (snd (networkFirstStrategy e request st))).
  { apply WorkerFacts.keeps_networkFirst.
    now apply WorkerFacts.separated_run. }
  assert (Hrun : networkFirstStrategy e request st
                 = (Fulfilled nr,
                    cache_put RUNTIME_CACHE request nr (caches_open RUNTIME_CACHE st))).
  { unfold networkFirstStrategy, catch, and_then, reading, put_unawaited, effect, resolved.
    rewrite Hnet, H200. simpl. now rewrite Hput. }
  rewrite Hrun in *. cbn [fst snd] in *.
  assert (Hstored : runtime_lookup request
                      (cache_put RUNTIME_CACHE request nr (caches_open RUNTIME_CACHE st))
                    = Some nr).
  { unfold runtime_lookup, cache_put.
    destruct (get_open RUNTIME_CACHE st) as [c0 Hc0]. rewrite Hc0.
    rewrite JsMapFacts.get_set_same. apply JsMapFacts.get_set_same. }
  split; [reflexivity|]. split; [exact Hstored|].
  intros e' err Hdown.
  unfold networkFirstStrategy, catch, and_then, reading, resolved. rewrite Hdown.
  rewrite (WorkerFacts.match_is_runtime_lookup origin request _ Hsep Hapi).
  now rewrite Hstored.
Qed.

Lemma networkFirst_replays_last_success_witness :
  let st := run Samples.sample_origin Samples.sample_resolve Samples.sample_events in
  (Samples.sample_origin Samples.world_url = API_ORIGIN
   /\ fetch Samples.env_online Samples.world_url
      = Fulfilled (Samples.page Samples.world_url)
   /\ status (Samples.page Samples.world_url) = 200
   /\ put_ok Samples.env_online = true
   /\ fetch Samples.env_offline Samples.world_url
      = Rejected (mkError "TypeError" "Failed to fetch"))
  /\ fst (networkFirstStrategy Samples.env_offline Samples.world_url
            (snd (networkFirstStrategy Samples.env_online Samples.world_url st)))
     = Fulfilled (Samples.page Samples.world_url).
Proof.
  intros st.
  assert (H1 : Samples.sample_origin Samples.world_url = API_ORIGIN) by reflexivity.
  assert (H2 : fetch Samples.env_online Samples.world_url
               = Fulfilled (Samples.page Samples.world_url)) by reflexivity.
  assert (H3 : status (Samples.page Samples.world_url) = 200) by reflexivity.
  assert (H4 : put_ok Samples.env_online = true) by reflexivity.
  assert (H5 : fetch Samples.env_offline Samples.world_url
               = Rejected (mkError "TypeError" "Failed to fetch")) by reflexivity.
  split; [repeat split; assumption|].
  destruct (networkFirst_replays_last_success Samples.sample_origin
              Samples.sample_resolve Samples.sample_events Samples.env_online
              Samples.world_url _ WorkerFacts.sample_assets_not_api H1 H2 H3 H4)
    as (_ & _ & Hoff).
  exact (f_equal fst (Hoff Samples.env_offline _ H5)).
Defined.

(** *** Installation *)

Lemma fetch_all_succeeds (e : env) (urls : list string) :
  (forall u, In u urls -> exists r, fetch e u = Fulfilled r /\ response_ok r = true) ->
  exists rs, fetch_all e urls = Fulfilled rs.
Proof.
  induction urls as [|u urls IH]; simpl; intros H.
  - now exists [].
  - destruct (H u (or_introl eq_refl)) as (r & -> & ->).
    destruct IH as [rs ->]; [intros u' Hu'; apply H; now right|].
    now exists ((u, r) :: rs).
Qed.

Lemma fetch_all_sound (e : env) (urls : list string) rs :
  fetch_all e urls = Fulfilled rs ->
  forall u r, In (u, r) rs -> fetch e u = Fulfilled r.
Proof.
  revert rs. induction urls as [|u0 urls IH]; simpl; intros rs.
  - intros [= <-] u r [].
  - destruct (fetch e u0) as [r0|err] eqn:Hf; [|discriminate].
    destruct (response_ok r0); [|discriminate].
    destruct (fetch_all e urls) as [rs'|err]; [|discriminate].
    intros [= <-] u r [[= <- <-] | Hin]; [assumption | now apply (IH rs')].
Qed.

Lemma put_all_snoc name rs u r (st : CacheStorage) :
  put_all name (rs ++ [(u, r)]) st = cache_put name u r (put_all name rs st).
Proof. unfold put_all. now rewrite fold_left_app. Qed.

(** Storing the answers of one network: every URL of the batch ends up
    with its answer. *)
Lemma put_all_lookup (e : env) name rs (st : CacheStorage) c0 :
  JsMap.get name st = Some c0 ->
  (forall u r, In (u, r) rs -> fetch e u = Fulfilled r) ->
  exists c,
    JsMap.get name (put_all name rs st) = Some c
    /\ forall u r, In (u, r) rs -> JsMap.get u c = Some r.
Proof.
  intros Hc0. induction rs as [|[u0 r0] rs IH] using rev_ind; intros Hnet.
  - exists c0. split; [assumption | intros u r []].
  - destruct IH as (c & Hc & Hall).
    { intros u r Hin. apply Hnet. apply in_or_app. now left. }
    exists (JsMap.set u0 r0 c). rewrite put_all_snoc. split.
    + unfold cache_put. rewrite Hc. apply JsMapFacts.get_set_same.
    + intros u r Hin. destruct (String.eqb_spec u0 u) as [->|Hne].
      * rewrite JsMapFacts.get_set_same. f_equal.
        assert (H0 : fetch e u = Fulfilled r0).
        { apply Hnet. apply in_or_app. right. now left. }
        rewrite (Hnet u r Hin) in H0. congruence.
      * rewrite JsMapFacts.get_set_other by assumption.
        apply in_app_or in Hin. destruct Hin as [Hin | [[= -> ->] | []]];
          [now apply Hall | congruence].
Qed.

Lemma install_success (resolve : string -> string) (e : env) (st : CacheStorage) :
  manifest_available resolve e -> put_ok e = true ->
  fst (install resolve e st) = Fulfilled tt
  /\ exists c,
       JsMap.get CACHE_NAME (snd (install resolve e st)) = Some c
       /\ forall a r, In a STATIC_ASSETS -> fetch e (resolve a) = Fulfilled r ->
                      JsMap.get (resolve a) c = Some r.
Proof.
  intros Havail Hput.
  destruct (fetch_all_succeeds e (map resolve STATIC_ASSETS)) as [rs Hrs].
  { intros u Hu. apply in_map_iff in Hu. destruct Hu as (a & <- & Ha).
    now apply Havail. }
  assert (Hrun : install resolve e st
                 = (Fulfilled tt, put_all CACHE_NAME rs (caches_open CACHE_NAME st))).
  { unfold install, catch, and_then, effect, resolved, cache_addAll.
    now rewrite Hrs, Hput. }
  rewrite Hrun. cbn [fst snd]. split; [reflexivity|].
  destruct (get_open CACHE_NAME st) as [c0 Hc0].
  destruct (put_all_lookup e CACHE_NAME rs _ c0 Hc0 (fetch_all_sound e _ rs Hrs))
    as (c & Hc & Hall).
  exists c. split; [assumption|]. intros a r Ha Hnet.
  assert (Hin : In (resolve a) (map fst rs)).
  { rewrite (WorkerFacts.fetch_all_urls e _ rs Hrs). now apply in_map. }
  apply in_map_iff in Hin. destruct Hin as ([u r'] & Hu & Hin). simpl in Hu. subst u.
  rewrite (Hall _ _ Hin). f_equal.
  pose proof (fetch_all_sound e _ rs Hrs _ _ Hin) as H'. congruence.
Qed.

(** X14. When every asset of the manifest is answered with a success
    status and the store accepts the writes, the installation succeeds
    and the static store then holds, for each asset of the manifest, the
    response the network gave for it, whatever the storage held before. *)
Theorem install_populates_manifest (resolve : string -> string) (e : env)
    (st : CacheStorage) :
  manifest_available resolve e -> put_ok e = true ->
  fst (install resolve e st) = Fulfilled tt
  /\ forall a r, In a STATIC_ASSETS -> fetch e (resolve a) = Fulfilled r ->
                 static_lookup (resolve a) (snd (install resolve e st)) = Some r.
Proof.
  intros Havail Hput.
  destruct (install_success resolve e st Havail Hput) as (Hok & c & Hc & Hall).
  split; [assumption|]. intros a r Ha Hnet.
  unfold static_lookup. rewrite Hc. now apply Hall.
Qed.

Lemma online_manifest_available :
  manifest_available Samples.sample_resolve Samples.env_online.
Proof. intros a _. eexists. split; reflexivity. Qed.

Lemma install_populates_manifest_witness :
  (manifest_available Samples.sample_resolve Samples.env_online
   /\ put_ok Samples.env_online = true
   /\ In "./app.js" STATIC_ASSETS)
  /\ static_lookup "https://dict.example/app.js"
       (snd (install Samples.sample_resolve Samples.env_online (JsMap.empty Cache)))
     = Some (Samples.page "https://dict.example/app.js").
Proof.
  assert (H1 : put_ok Samples.env_online = true) by reflexivity.
  assert (H2 : In "./app.js" STATIC_ASSETS) by (simpl; tauto).
  split; [split; [apply online_manifest_available | split; assumption]|].
  exact (proj2 (install_populates_manifest Samples.sample_resolve Samples.env_online
                  (JsMap.empty Cache) online_manifest_available H1)
               "./app.js" _ H2 eq_refl).
Defined.



End WorkerMoreFacts.


(** ** The data functions of the UI controller *)

Module UIFacts.
Import UI.

Lemma each_invariant (S : Type) (I : S -> Prop) (f : value -> S -> outcome S error) :
  (forall x s s', I s -> f x s = Fulfilled s' -> I s') ->
  forall elems s s', I s -> each f elems s = Fulfilled s' -> I s'.
Proof.
  intros Hf elems. induction elems as [|x elems IH]; simpl; intros s s' Hs.
  - now intros [= <-].
  - destruct (f x s) as [s1|e] eqn:Hx; simpl; [|discriminate].
    apply IH. now apply (Hf x s).
Qed.

Lemma forEach_invariant (S : Type) (I : S -> Prop) (f : value -> S -> outcome S error) :
  (forall x s s', I s -> f x s = Fulfilled s' -> I s') ->
  forall v s s', I s -> forEach v f s = Fulfilled s' -> I s'.
Proof.
  intros Hf v s s' Hs. destruct v; simpl; try discriminate.
  now apply each_invariant.
Qed.

Lemma each_app (S : Type) (f : value -> S -> outcome S error) l1 l2 (s : S) :
  each f (l1 ++ l2) s = bind (each f l1 s) (each f l2).
Proof.
  revert s. induction l1 as [|x l1 IH]; simpl; intros s; [reflexivity|].
  destruct (f x s) as [s1|e]; simpl; [apply IH | reflexivity].
Qed.

(** The loop of [extractAudioURLs] over phonetics that are objects. *)
Lemma audio_loop elems acc :
  Forall (fun p => p <> VNull /\ p <> VUndefined) elems ->
  each (fun phonetic audioURLs =>
          bind (prop phonetic "audio") (fun audio =>
          if ToBoolean audio then Fulfilled (audioURLs ++ [audio])
          else Fulfilled audioURLs))
       elems acc
  = Fulfilled (acc ++ filter ToBoolean (map audio_of elems)).
Proof.
  intros Hall. revert acc. induction Hall as [|p elems [Hnull Hundef] _ IH];
    intros acc; simpl.
  - now rewrite app_nil_r.
  - unfold audio_of at 1.
    destruct p; try congruence; simpl;
      try (rewrite IH; reflexivity).
    destruct (ToBoolean (own "audio" props)); simpl; rewrite IH;
      [now rewrite <- app_assoc | reflexivity].
Qed.

(** X16. [extractAudioURLs] returns, in the order of the phonetics,
    exactly the audio fields that are truthy: a phonetic without an
    [audio] field, or with an empty one, gives no URL, and a word
    without phonetics gives none at all. Whatever the payload, a list it
    returns never contains an empty or missing URL. *)
Theorem audio_urls_are_the_truthy_ones (wordData : value) :
  (forall phonetics,
     prop wordData "phonetics" = Fulfilled phonetics ->
     ToBoolean phonetics = false ->
     extractAudioURLs wordData = Fulfilled [])
  /\ (forall elems,
        prop wordData "phonetics" = Fulfilled (VArray elems) ->
        Forall (fun p => p <> VNull /\ p <> VUndefined) elems ->
        extractAudioURLs wordData = Fulfilled (filter ToBoolean (map audio_of elems)))
  /\ (forall urls,
        extractAudioURLs wordData = Fulfilled urls ->
        Forall (fun u => ToBoolean u = true) urls).
Proof.
  split; [|split].
  - intros phonetics Hp Hfalsy. unfold extractAudioURLs. rewrite Hp. simpl.
    now rewrite Hfalsy.
  - intros elems Hp Hall. unfold extractAudioURLs. rewrite Hp. simpl.
    now rewrite audio_loop.
  - intros urls. unfold extractAudioURLs.
    destruct (prop wordData "phonetics") as [phonetics|e]; simpl; [|discriminate].
    destruct (ToBoolean phonetics); [|intros [= <-]; constructor].
    apply (forEach_invariant _ (Forall (fun u => ToBoolean u = true))); [|constructor].
    intros x s s' Hs. destruct (prop x "audio") as [audio|e]; simpl; [|discriminate].
    destruct (ToBoolean audio) eqn:Ha; intros [= <-]; [|assumption].
    apply Forall_app. split; [assumption | now constructor].
Qed.

Lemma audio_urls_are_the_truthy_ones_witness :
  (prop UISamples.hello_word "phonetics"
   = Fulfilled (VArray [UISamples.phonetic "/helo/" "https://audio.example/hello-uk.mp3";
                        UISamples.phonetic "/hel@U/" "";
                        VObject [("text", VString "/h@loU/")];
                        UISamples.phonetic "/helou/" "https://audio.example/hello-us.mp3"])
   /\ prop (VObject []) "phonetics" = Fulfilled VUndefined
   /\ ToBoolean VUndefined = false)
  /\ extractAudioURLs UISamples.hello_word
     = Fulfilled [VString "https://audio.example/hello-uk.mp3";
                  VString "https://audio.example/hello-us.mp3"]
  /\ extractAudioURLs (VObject []) = Fulfilled [].
Proof.
  split; [repeat split|]. split.
  - apply (proj1 (proj2 (audio_urls_are_the_truthy_ones UISamples.hello_word)) _ eq_refl).
    repeat constructor; discriminate.
  - exact (proj1 (audio_urls_are_the_truthy_ones (VObject [])) _ eq_refl eq_refl).
Defined.

Lemma bind_Fulfilled (A B : Type) (o : outcome A error) (k : A -> outcome B error) b :
  bind o k = Fulfilled b -> exists a, o = Fulfilled a /\ k a = Fulfilled b.
Proof. destruct o as [a|e]; simpl; [now exists a | discriminate]. Qed.

Lemma each_grows f elems s s' :
  grows f -> each f elems s = Fulfilled s' -> incl s s'.
Proof.
  intros Hf. apply (each_invariant _ (fun s1 => incl s s1) f).
  - intros x s1 s2 Hs1 Hx. apply (incl_tran Hs1). now apply (Hf x).
  - apply incl_refl.
Qed.

Lemma forEach_grows f v s s' :
  grows f -> forEach v f s = Fulfilled s' -> incl s s'.
Proof.
  intros Hf. destruct v; simpl; try discriminate. now apply each_grows.
Qed.

(** What the step run on one element puts into the set is in the set
    at the end of the loop. *)
Lemma each_contains f (y x : value) elems s s' :
  grows f ->
  (forall s1 s2, f x s1 = Fulfilled s2 -> In y s2) ->
  In x elems -> each f elems s = Fulfilled s' -> In y s'.
Proof.
  intros Hf Hx Hin Hrun.
  apply in_split in Hin. destruct Hin as (l1 & l2 & ->).
  rewrite each_app in Hrun. apply bind_Fulfilled in Hrun.
  destruct Hrun as (s1 & _ & Hrun). simpl in Hrun.
  apply bind_Fulfilled in Hrun. destruct Hrun as (s2 & Hstep & Hrest).
  apply (each_grows f l2 s2 s' Hf Hrest). now apply (Hx s1).
Qed.

Lemma same_value_zero_string s y : same_value_zero (VString s) y = is_string s y.
Proof. now destruct y. Qed.

Lemma is_string_eq s y : is_string s y = true -> y = VString s.
Proof.
  destruct y; simpl; try discriminate.
  intros H. apply String.eqb_eq in H. now subst.
Qed.

Lemma add_incl x set : incl set (add x set).
Proof.
  unfold add. destruct (existsb (same_value_zero x) set);
    [apply incl_refl | now apply incl_appl, incl_refl].
Qed.

Lemma add_in_string s set : In (VString s) (add (VString s) set).
Proof.
  unfold add. destruct (existsb (same_value_zero (VString s)) set) eqn:E.
  - apply existsb_exists in E. destruct E as (y & Hy & Hsame).
    rewrite same_value_zero_string in Hsame. apply is_string_eq in Hsame. now subst.
  - apply in_or_app. right. now left.
Qed.

Lemma add_unique x set : unique_strings set -> unique_strings (add x set).
Proof.
  intros Hu s. unfold add.
  destruct (existsb (same_value_zero x) set) eqn:E; [apply Hu|].
  rewrite filter_app, length_app. simpl.
  destruct (is_string s x) eqn:Hx; simpl; [|specialize (Hu s); lia].
  apply is_string_eq in Hx. subst x.
  assert (Hnone : filter (is_string s) set = []).
  { destruct (filter (is_string s) set) as [|y l] eqn:Hf; [reflexivity|]. exfalso.
    assert (Hy : In y (filter (is_string s) set)) by (rewrite Hf; now left).
    apply filter_In in Hy. destruct Hy as [Hy Hs].
    assert (Hex : existsb (same_value_zero (VString s)) set = true).
    { apply existsb_exists. exists y. split; [assumption|].
      now rewrite same_value_zero_string. }
    congruence. }
  rewrite Hnone. simpl. lia.
Qed.

Lemma add_step_grows : grows (fun synonym s => Fulfilled (add synonym s)).
Proof. intros x s s' [= <-]. apply add_incl. Qed.

Lemma add_all_grows synonyms : grows (fun _ s => add_all synonyms s).
Proof. intros _ s s'. apply forEach_grows, add_step_grows. Qed.

Lemma add_all_unique synonyms s s' :
  unique_strings s -> add_all synonyms s = Fulfilled s' -> unique_strings s'.
Proof.
  apply (forEach_invariant _ unique_strings).
  intros x s1 s2 Hs1 [= <-]. now apply add_unique.
Qed.

Lemma add_all_contains syns str s s' :
  In (VString str) syns -> add_all (VArray syns) s = Fulfilled s' ->
  In (VString str) s'.
Proof.
  intros Hin. unfold add_all. simpl.
  apply (each_contains _ (VString str) (VString str)); [apply add_step_grows| |assumption].
  intros s1 s2 [= <-]. apply add_in_string.
Qed.

Lemma on_definition_grows : grows on_definition.
Proof.
  intros d s s'. unfold on_definition.
  destruct (prop d "synonyms") as [syn|e]; simpl; [|discriminate].
  destruct (ToBoolean syn); [apply (add_all_grows syn d) | intros [= <-]; apply incl_refl].
Qed.

Lemma on_definition_unique d s s' :
  unique_strings s -> on_definition d s = Fulfilled s' -> unique_strings s'.
Proof.
  intros Hs. unfold on_definition.
  destruct (prop d "synonyms") as [syn|e]; simpl; [|discriminate].
  destruct (ToBoolean syn); [now apply add_all_unique | now intros [= <-]].
Qed.

Lemma on_meaning_steps m s s' :
  on_meaning m s = Fulfilled s' ->
  exists syn s1 defs,
    prop m "synonyms" = Fulfilled syn
    /\ (if ToBoolean syn then add_all syn s else Fulfilled s) = Fulfilled s1
    /\ prop m "definitions" = Fulfilled defs
    /\ (if ToBoolean defs then forEach defs on_definition s1 else Fulfilled s1)
       = Fulfilled s'.
Proof.
  unfold on_meaning. intros H.
  apply bind_Fulfilled in H. destruct H as (syn & Hsyn & H).
  apply bind_Fulfilled in H. destruct H as (s1 & Hs1 & H).
  apply bind_Fulfilled in H. destruct H as (defs & Hdefs & H).
  now exists syn, s1, defs.
Qed.

Lemma on_meaning_grows : grows on_meaning.
Proof.
  intros m s s' H. apply on_meaning_steps in H.
  destruct H as (syn & s1 & defs & _ & Hs1 & _ & Hs').
  apply (@incl_tran _ s s1 s').
  - destruct (ToBoolean syn); [now apply (add_all_grows syn m) | injection Hs1 as <-].
    apply incl_refl.
  - destruct (ToBoolean defs);
      [exact (forEach_grows on_definition defs s1 s' on_definition_grows Hs')
      | injection Hs' as <-; apply incl_refl].
Qed.

Lemma on_meaning_unique m s s' :
  unique_strings s -> on_meaning m s = Fulfilled s' -> unique_strings s'.
Proof.
  intros Hs H. apply on_meaning_steps in H.
  destruct H as (syn & s1 & defs & _ & Hs1 & _ & Hs').
  assert (H1 : unique_strings s1).
  { destruct (ToBoolean syn); [now apply (add_all_unique syn s) | now injection Hs1 as <-]. }
  destruct (ToBoolean defs); [|now injection Hs' as <-].
  apply (forEach_invariant _ unique_strings on_definition) with (v := defs) (s := s1);
    try assumption.
  intros d s2 s3. apply on_definition_unique.
Qed.

(** X17. Every synonym is listed once: the list built by
    [extractAllSynonyms] never contains the same string twice, and it
    contains every string of the [synonyms] of every meaning and of the
    [synonyms] of every definition of every meaning. *)
Theorem synonyms_are_listed_once (meanings : value) (result : list value) :
  extractAllSynonyms meanings = Fulfilled result ->
  (forall s, (List.length (filter (is_string s) result) <= 1)%nat)
  /\ (forall ms m syns s,
        meanings = VArray ms -> In m ms ->
        prop m "synonyms" = Fulfilled (VArray syns) ->
        In (VString s) syns -> In (VString s) result)
  /\ (forall ms m defs d syns s,
        meanings = VArray ms -> In m ms ->
        prop m "definitions" = Fulfilled (VArray defs) -> In d defs ->
        prop d "synonyms" = Fulfilled (VArray syns) ->
        In (VString s) syns -> In (VString s) result).
Proof.
  intros Hrun. split; [|split].
  - apply (forEach_invariant _ unique_strings on_meaning) with (v := meanings) (s := []).
    + intros m s s'. apply on_meaning_unique.
    + intros s. simpl. lia.
    + exact Hrun.
  - intros ms m syns s -> Hm Hsyn Hs. unfold extractAllSynonyms in Hrun. simpl in Hrun.
    apply (each_contains on_meaning (VString s) m ms [] result on_meaning_grows);
      try assumption.
    intros s1 s2 Hstep. apply on_meaning_steps in Hstep.
    destruct Hstep as (syn & s1' & defs & Hsyn' & Hs1 & _ & Hs2).
    rewrite Hsyn in Hsyn'. injection Hsyn' as <-. simpl in Hs1.
    assert (Hin : In (VString s) s1') by now apply (add_all_contains syns s s1).
    destruct (ToBoolean defs);
      [now apply (forEach_grows on_definition defs s1' s2 on_definition_grows)
      | now injection Hs2 as <-].
  - intros ms m defs d syns s -> Hm Hdefs Hd Hsyn Hs.
    unfold extractAllSynonyms in Hrun. simpl in Hrun.
    apply (each_contains on_meaning (VString s) m ms [] result on_meaning_grows);
      try assumption.
    intros s1 s2 Hstep. apply on_meaning_steps in Hstep.
    destruct Hstep as (syn & s1' & defs' & _ & _ & Hdefs' & Hs2).
    rewrite Hdefs in Hdefs'. injection Hdefs' as <-. simpl in Hs2.
    apply (each_contains on_definition (VString s) d defs s1' s2 on_definition_grows);
      try assumption.
    intros s3 s4. unfold on_definition. rewrite Hsyn. simpl.
    now apply add_all_contains.
Qed.

Lemma synonyms_are_listed_once_witness :
  extractAllSynonyms UISamples.hello_meanings
  = Fulfilled [VString "greeting"; VString "hi"; VString "howdy"; VString "salutation"]
  /\ (List.length (filter (is_string "howdy")
                     [VString "greeting"; VString "hi"; VString "howdy";
                      VString "salutation"]) <= 1)%nat.
Proof.
  assert (H : extractAllSynonyms UISamples.hello_meanings
              = Fulfilled [VString "greeting"; VString "hi"; VString "howdy";
                           VString "salutation"]) by reflexivity.
  split; [exact H|].
  exact (proj1 (synonyms_are_listed_once UISamples.hello_meanings _ H) "howdy").
Defined.

End UIFacts.


(** ** The page behind the worker *)

Module PageFacts.
Import ServiceWorker.

Section Platform.
Context (origin resolve : string -> string) (parse : string -> outcome value error).

Hypothesis assets_not_api :
  Forall (fun a => origin (resolve a) <> API_ORIGIN) STATIC_ASSETS.

Lemma on_fetch_offline_api events e url err :
  origin url = API_ORIGIN -> fetch e url = Rejected err ->
  fst (on_fetch origin resolve e url (run origin resolve events))
  = Fulfilled (Some match runtime_lookup url (run origin resolve events) with
                    | Some stored => stored
                    | None => offline_response
                    end).
Proof.
  intros Hapi Hdown. unfold on_fetch. rewrite Hapi, String.eqb_refl.
  unfold and_then at 1, networkFirstStrategy, catch, and_then, reading, resolved.
  rewrite Hdown.
  rewrite (WorkerFacts.match_is_runtime_lookup origin url _
             (WorkerFacts.separated_run origin resolve assets_not_api events) Hapi).
  now destruct (runtime_lookup url (run origin resolve events)).
Qed.

(** X18. Offline, behind the worker, a word whose answer is in the
    runtime store is still found after the page has been reloaded (so
    that its own lookup cache is empty): [fetchWord] fulfils with the
    payload of the stored response, and caches it again. A word the
    runtime store does not hold fails with the "Network error..."
    message, the worker having answered 503; the page never sees the
    failure of [fetch] itself. *)
Theorem offline_search_behind_worker (events : list event) (e : env) (word : string)
    (err : error) (t t' : Z) :
  origin (APIService.request_url word) = API_ORIGIN ->
  fetch e (APIService.request_url word) = Rejected err ->
  (forall stored d,
     runtime_lookup (APIService.request_url word) (run origin resolve events)
     = Some stored ->
     parse (body stored) = Fulfilled d ->
     APIService.fetchWord t t' (Page.served origin resolve parse e
                                  (run origin resolve events))
       word (APIService.mkWorld (JsMap.empty CacheManager.item) [])
     = (Fulfilled d,
        APIService.mkWorld [(word, CacheManager.mkItem d t')]
                           [APIService.request_url word]))
  /\ (runtime_lookup (APIService.request_url word) (run origin resolve events) = None ->
      fst (APIService.fetchWord t t' (Page.served origin resolve parse e
                                        (run origin resolve events))
             word (APIService.mkWorld (JsMap.empty CacheManager.item) []))
      = Rejected (Error APIService.NETWORK_MESSAGE)).
Proof.
  intros Hapi Hdown.
  pose proof (on_fetch_offline_api events e _ err Hapi Hdown) as Hserved.
  split.
  - intros stored d Hstored Hparse.
    assert (H200 : status stored = 200).
    { unfold runtime_lookup in Hstored.
      destruct (JsMap.get RUNTIME_CACHE (run origin resolve events)) as [c|] eqn:Hc;
        [|discriminate].
      destruct (WorkerMoreFacts.reachable_own_and_admissible origin resolve events)
        as [_ Hadm].
      apply (Hadm RUNTIME_CACHE c _ stored (WorkerFacts.get_Some_In _ _ _ _ Hc) Hstored).
      reflexivity. }
    rewrite Hstored in Hserved.
    rewrite (APIFacts.fetchWord_success t t'
               (Page.served origin resolve parse e (run origin resolve events))
               word _ (APIService.mkResponse (status stored) (parse (body stored))) d);
      try reflexivity.
    + unfold Page.served. now rewrite Hserved.
    + unfold APIService.ok. simpl. now rewrite H200.
    + exact Hparse.
  - intros Hnone. rewrite Hnone in Hserved.
    rewrite APIFacts.fetchWord_miss by reflexivity.
    unfold APIService.fetch_and_store, Page.served. rewrite Hserved. reflexivity.
Qed.

End Platform.

Lemma offline_search_behind_worker_witness :
  let st := Samples.sample_events ++ [Fetch PageSamples.env_api Samples.hello_url] in
  (Samples.sample_origin (APIService.request_url "hello") = API_ORIGIN
   /\ fetch Samples.env_offline (APIService.request_url "hello")
      = Rejected (mkError "TypeError" "Failed to fetch")
   /\ Samples.sample_origin (APIService.request_url "world") = API_ORIGIN
   /\ runtime_lookup (APIService.request_url "world")
        (run Samples.sample_origin Samples.sample_resolve st) = None)
  /\ fst (APIService.fetchWord 5 6
            (Page.served Samples.sample_origin Samples.sample_resolve
               PageSamples.sample_parse Samples.env_offline
               (run Samples.sample_origin Samples.sample_resolve st))
            "hello" Samples.fresh_world)
     = Fulfilled Samples.hello_entry
  /\ fst (APIService.fetchWord 5 6
            (Page.served Samples.sample_origin Samples.sample_resolve
               PageSamples.sample_parse Samples.env_offline
               (run Samples.sample_origin Samples.sample_resolve st))
            "world" Samples.fresh_world)
     = Rejected (Error APIService.NETWORK_MESSAGE).
Proof.
  intros st.
  assert (H1 : Samples.sample_origin (APIService.request_url "hello") = API_ORIGIN)
    by reflexivity.
  assert (H2 : fetch Samples.env_offline (APIService.request_url "hello")
               = Rejected (mkError "TypeError" "Failed to fetch")) by reflexivity.
  assert (H3 : Samples.sample_origin (APIService.request_url "world") = API_ORIGIN)
    by reflexivity.
  assert (H4 : runtime_lookup (APIService.request_url "world")
                 (run Samples.sample_origin Samples.sample_resolve st) = None)
    by reflexivity.
  split; [repeat split; assumption|]. split.
  - exact (f_equal fst
             (proj1 (offline_search_behind_worker Samples.sample_origin
                       Samples.sample_resolve PageSamples.sample_parse
                       WorkerFacts.sample_assets_not_api st Samples.env_offline
                       "hello" _ 5 6 H1 H2)
                    _ Samples.hello_entry eq_refl eq_refl)).
  - exact (proj2 (offline_search_behind_worker Samples.sample_origin
                    Samples.sample_resolve PageSamples.sample_parse
                    WorkerFacts.sample_assets_not_api st Samples.env_offline
                    "world" (mkError "TypeError" "Failed to fetch") 5 6 H3 eq_refl) H4).
Defined.

End PageFacts.
